(** * xmlbuilder2: tree-order utilities and the JSON writer

    A shallow embedding of [Utility] (tree traversal, tree position,
    preceding / following tests, qualified-name extraction) and of
    [JSONWriterImpl] (the recursive JSON renderer with its pretty-printing
    helpers), followed by the properties checked against the written
    specification.

    Conventions of the embedding:
    - a DOM node is a finite tree value; object identity ([===]) is
      equality of [nodeId]; the back-reference [node.ownerDocument],
      which closes a cycle in the object graph, is a function from nodes
      to documents ([None] for [null]) given beside the tree;
    - JavaScript numbers used as counters, levels and offsets are
      integers ([Z]); [JSONWriterImpl] is embedded within the range
      where array and string lengths are representable, and [Runtime]
      gives the renderer once more with the largest array length of the
      language and the [RangeError] raised above it; the largest string
      length and the depth of the call stack, which depend on the
      engine, are in neither;
    - a callback with side effects threads an explicit state; a falsy
      result is [None], a truthy result [r] is [Some r];
    - a thrown [DOMException] is the left injection of a sum. *)

From Stdlib Require Import ZArith List String Ascii Bool Lia.
Import ListNotations.

Local Open Scope string_scope.
Local Open Scope list_scope.
Local Open Scope Z_scope.

(** ** DOM nodes *)

#[local] Unset Elimination Schemes.

(** A node as the utilities see it: its identity and its ordered
    children. *)
Inductive Node : Type :=
  mkNode { nodeId : nat; childNodes : list Node }.

#[local] Set Elimination Schemes.

(** [a === b] on node objects. *)
Definition same (a b : Node) : bool := Nat.eqb (nodeId a) (nodeId b).

Section NodeInduction.

Variable P : Node -> Prop.
Hypothesis step :
  forall id children, Forall P children -> P (mkNode id children).

(** Induction on a node with the property available for all children. *)
Fixpoint Node_children_ind (n : Node) : P n :=
  match n with
  | mkNode id children =>
      step id children
        ((fix all (l : list Node) : Forall P l :=
            match l with
            | [] => Forall_nil P
            | c :: l' => Forall_cons c (Node_children_ind c) (all l')
            end) children)
  end.

End NodeInduction.

(** ** Exceptions and the constants of [DOMImplementation] *)

(** The two [DOMException] kinds the utilities throw. *)
Inductive DOMException : Type :=
| InvalidCharacterError
| NamespaceError.

(** [s.split(sep)] for a one-character separator: the pieces between the
    separators, in order; a string without separator is its only piece. *)
Fixpoint split (sep : ascii) (s : string) : list string :=
  match s with
  | EmptyString => [EmptyString]
  | String c rest =>
      if Ascii.eqb c sep then EmptyString :: split sep rest
      else match split sep rest with
           | [] => [String c EmptyString]
           | piece :: pieces => String c piece :: pieces
           end
  end.

(** [s.split(re)] for a regular expression [re] that matches exactly one
    character of a class: the pieces between the matching characters, in
    order; the empty string has the empty string as its only piece. *)
Fixpoint splitOn (isSep : ascii -> bool) (s : string) : list string :=
  match s with
  | EmptyString => [EmptyString]
  | String c rest =>
      if isSep c then EmptyString :: splitOn isSep rest
      else match splitOn isSep rest with
           | [] => [String c EmptyString]
           | piece :: pieces => String c piece :: pieces
           end
  end.

Module DOMImplementation.

Module Namespace.

(** Modelled from the spec: [DOMImplementation.Namespace.XML], the fixed
    XML namespace URI (the constant is declared outside the given
    sources). *)
Definition XML : string := "http://www.w3.org/XML/1998/namespace".

(** Modelled from the spec: [DOMImplementation.Namespace.XMLNS], the fixed
    XMLNS namespace URI (the constant is declared outside the given
    sources). *)
Definition XMLNS : string := "http://www.w3.org/2000/xmlns/".

End Namespace.

Module XMLSpec.

(** Modelled from the spec: the characters that may start an XML name,
    over ASCII. *)
Definition isNameStartChar (c : ascii) : bool :=
  let n := nat_of_ascii c in
  (Nat.eqb n 58 || Nat.eqb n 95
   || (Nat.leb 65 n && Nat.leb n 90)
   || (Nat.leb 97 n && Nat.leb n 122))%bool.

(** Modelled from the spec: the characters that may continue an XML
    name, over ASCII. *)
Definition isNameChar (c : ascii) : bool :=
  let n := nat_of_ascii c in
  (isNameStartChar c || Nat.eqb n 45 || Nat.eqb n 46
   || (Nat.leb 48 n && Nat.leb n 57))%bool.

(** Every character of [s] may continue a name. *)
Fixpoint allNameChars (s : string) : bool :=
  match s with
  | EmptyString => true
  | String c rest => isNameChar c && allNameChars rest
  end.

(** Modelled from the spec: [DOMImplementation.XMLSpec.Name], the XML
    [Name] production (the regular expression is declared outside the
    given sources), over ASCII names. *)
Definition Name (s : string) : bool :=
  match s with
  | EmptyString => false
  | String c rest => isNameStartChar c && allNameChars rest
  end.

(** A name without colon. *)
Definition NCName (s : string) : bool :=
  Name s && Nat.eqb (List.length (split ":" s)) 1.

(** Modelled from the spec: [DOMImplementation.XMLSpec.QName], the
    [QName] production: a local name, or a prefix and a local name
    separated by exactly one colon, both parts non-empty (the regular
    expression is declared outside the given sources), over ASCII
    names. *)
Definition QName (s : string) : bool :=
  match split ":" s with
  | [localPart] => NCName localPart
  | [prefixPart; localPart] => NCName prefixPart && NCName localPart
  | _ => false
  end.

End XMLSpec.

End DOMImplementation.

Module Utility.

Module OrderedSet.

(** [Utility.OrderedSet.WhiteSpace], the class [[\t\n\f\r ]] as a test on
    one character: TAB, LF, FF, CR or SPACE. *)
Definition WhiteSpace (c : ascii) : bool :=
  let n := nat_of_ascii c in
  (Nat.eqb n 9 || Nat.eqb n 10 || Nat.eqb n 12 || Nat.eqb n 13
   || Nat.eqb n 32)%bool.

(** [Utility.OrderedSet.parse(value)]: [filtered] is the array the loop
    pushes the non-empty pieces to. *)
Definition parse (value : string) : list string :=
  let arr := splitOn WhiteSpace value in
  (fix loop (arr filtered : list string) {struct arr} : list string :=
     match arr with
     | [] => filtered
     | str :: rest =>
         if negb (String.eqb str EmptyString) then loop rest (filtered ++ [str])
         else loop rest filtered
     end) arr [].

(** [Utility.OrderedSet.serialize(tokens)]. *)
Definition serialize (tokens : list string) : string :=
  String.concat " " tokens.

(** [Utility.OrderedSet.sanitize(value)]. *)
Definition sanitize (value : string) : string :=
  serialize (parse value).

End OrderedSet.

(** [Utility.forEachDescendant(node, func)]: the callback receives the
    current state and returns its result with the new state. *)
Fixpoint forEachDescendant {S R : Type} (node : Node)
    (func : Node -> S -> option R * S) (s : S) {struct node} : option R * S :=
  (fix loop (children : list Node) (s : S) {struct children} : option R * S :=
     match children with
     | [] => (None, s)
     | child :: rest =>
         let (res, s) := func child s in
         match res with
         | Some r => (Some r, s)
         | None =>
             let (res, s) := forEachDescendant child func s in
             match res with
             | Some r => (Some r, s)
             | None => loop rest s
             end
         end
     end) (childNodes node) s.

(** [Utility.isDescendantOf(node, other)]. *)
Fixpoint isDescendantOf (node other : Node) {struct node} : bool :=
  (fix loop (children : list Node) : bool :=
     match children with
     | [] => false
     | child :: rest =>
         if same child other then true
         else if isDescendantOf child other then true
         else loop rest
     end) (childNodes node).

(** [Utility.isAncestorOf(node, other)]. *)
Definition isAncestorOf (node other : Node) : bool := isDescendantOf other node.

(** The callback of [treePosition]: its closure variables [pos] and
    [found] are the state; it returns [undefined]. *)
Definition treePosition_visit (node childNode : Node) (st : Z * bool)
    : option unit * (Z * bool) :=
  let (pos, found) := st in
  let pos := pos + 1 in
  let found := if negb found && same childNode node then true else found in
  (None, (pos, found)).

(** [Utility.treePosition(root, node)]. *)
Definition treePosition (root : option Node) (node : Node) : Z :=
  match root with
  | None => -1
  | Some root =>
      let (pos, found) :=
        snd (forEachDescendant root (treePosition_visit node) (0, false)) in
      if found then pos else -1
  end.

Section OwnerDocument.

(** [node.ownerDocument] for every node: its owning document, or [None]
    for [null]. *)
Variable ownerDocument : Node -> option Node.

(** [Utility.isPreceding(node, other)]. *)
Definition isPreceding (node other : Node) : bool :=
  let nodePos := treePosition (ownerDocument node) node in
  let otherPos := treePosition (ownerDocument other) other in
  if (nodePos =? -1) || (otherPos =? -1) then false
  else otherPos <? nodePos.

(** [Utility.isFollowing(node, other)]. *)
Definition isFollowing (node other : Node) : bool :=
  let nodePos := treePosition (ownerDocument node) node in
  let otherPos := treePosition (ownerDocument other) other in
  if (nodePos =? -1) || (otherPos =? -1) then false
  else otherPos >? nodePos.

End OwnerDocument.

(** JavaScript truthiness of a [string | null] value. *)
Definition truthy (v : option string) : bool :=
  match v with
  | None => false
  | Some s => negb (String.eqb s EmptyString)
  end.

(** [a === b] on [string | null] values. *)
Definition strictEq (a b : option string) : bool :=
  match a, b with
  | None, None => true
  | Some x, Some y => String.eqb x y
  | _, _ => false
  end.

(** The object [extractNames] returns. *)
Record Names : Type :=
  mkNames {
    namespace : option string;
    prefix : option string;
    localName : string
  }.

Section QualifiedNames.

(** [qualifiedName.match(DOMImplementation.XMLSpec.Name)] and
    [qualifiedName.match(DOMImplementation.XMLSpec.QName)] as tests: the
    two regular expressions are parameters of the embedding. *)
Variable XMLSpec_Name XMLSpec_QName : string -> bool.

(** [Utility.validateQName(qualifiedName)]. *)
Definition validateQName (qualifiedName : string) : DOMException + unit :=
  if negb (XMLSpec_Name qualifiedName) then inl InvalidCharacterError
  else if negb (XMLSpec_QName qualifiedName) then inl InvalidCharacterError
  else inr tt.

(** [Utility.extractNames(namespace, qualifiedName)]. *)
Definition extractNames (namespace : option string) (qualifiedName : string)
    : DOMException + Names :=
  let namespace := if negb (truthy namespace) then None else namespace in
  match validateQName qualifiedName with
  | inl e => inl e
  | inr _ =>
      let parts := split ":" qualifiedName in
      let prefix :=
        if Nat.eqb (List.length parts) 2 then nth_error parts 0 else None in
      let localName :=
        if Nat.eqb (List.length parts) 2 then nth 1 parts EmptyString
        else qualifiedName in
      if truthy prefix && negb (truthy namespace) then
        inl NamespaceError
      else if strictEq prefix (Some "xml")
              && negb (strictEq namespace
                         (Some DOMImplementation.Namespace.XML)) then
        inl NamespaceError
      else if negb (strictEq namespace
                      (Some DOMImplementation.Namespace.XMLNS))
              && (strictEq prefix (Some "xmlns")
                  || String.eqb qualifiedName "xmlns") then
        inl NamespaceError
      else if strictEq namespace (Some DOMImplementation.Namespace.XMLNS)
              && (negb (strictEq prefix (Some "xmlns"))
                  && negb (String.eqb qualifiedName "xmlns")) then
        inl NamespaceError
      else
        inr (mkNames namespace prefix localName)
  end.

End QualifiedNames.

End Utility.

(** ** Vocabulary for token lists *)

Module Tokens.

(** Some character of [s] is white space. *)
Fixpoint hasWhiteSpace (s : string) : bool :=
  match s with
  | EmptyString => false
  | String c rest => Utility.OrderedSet.WhiteSpace c || hasWhiteSpace rest
  end.

(** Every character of [s] is white space (so for the empty string). *)
Fixpoint onlyWhiteSpace (s : string) : bool :=
  match s with
  | EmptyString => true
  | String c rest => Utility.OrderedSet.WhiteSpace c && onlyWhiteSpace rest
  end.

(** A string that is not empty, as the test [if (str)] sees it. *)
Definition nonEmpty (s : string) : bool := negb (String.eqb s EmptyString).

(** The only white space in [s] is the space character. *)
Fixpoint spacesOnly (s : string) : bool :=
  match s with
  | EmptyString => true
  | String c rest =>
      (negb (Utility.OrderedSet.WhiteSpace c) || Ascii.eqb c " ")
      && spacesOnly rest
  end.

(** A token: a non-empty string without white space. *)
Definition isToken (s : string) : Prop :=
  s <> EmptyString /\ hasWhiteSpace s = false.

End Tokens.

(** ** Reference definitions of tree order, in the specification's words *)

Module TreeOrder.

(** The descendants of [node] in document order: each child, followed by
    that child's own descendants, children taken in stored order. The
    node itself is not listed. *)
Fixpoint descendants (node : Node) : list Node :=
  flat_map (fun child => child :: descendants child) (childNodes node).

(** Visiting a sequence of nodes in order, stopping at the first truthy
    result and returning it; [None] when the sequence is exhausted. *)
Fixpoint visitUntil {S R : Type} (func : Node -> S -> option R * S)
    (nodes : list Node) (s : S) : option R * S :=
  match nodes with
  | [] => (None, s)
  | n :: rest =>
      let (res, s) := func n s in
      match res with
      | Some r => (Some r, s)
      | None => visitUntil func rest s
      end
  end.

(** Number of nodes of [nodes] that stand strictly before the first
    occurrence of [node]; [None] when [node] does not occur. *)
Fixpoint visitedBefore (node : Node) (nodes : list Node) : option Z :=
  match nodes with
  | [] => None
  | n :: rest =>
      if same n node then Some 0
      else option_map Z.succ (visitedBefore node rest)
  end.

(** The position the specification describes: one plus the number of
    nodes visited strictly before [node] in the preorder walk of the
    descendants of [root]; [-1] when [node] is not among them. *)
Definition specTreePosition (root node : Node) : Z :=
  match visitedBefore node (descendants root) with
  | Some k => 1 + k
  | None => -1
  end.

(** The callback of a traversal that records the nodes it is given, for
    a test [visit] without side effects. *)
Definition traced {R : Type} (visit : Node -> option R)
    (n : Node) (log : list Node) : option R * list Node :=
  (visit n, log ++ [n]).

(** Both nodes are attached to one and the same owning document. *)
Definition sameOwnerDocument (ownerDocument : Node -> option Node)
    (a b : Node) : bool :=
  match ownerDocument a, ownerDocument b with
  | Some da, Some db => same da db
  | _, _ => false
  end.

End TreeOrder.

(** ** The JSON writer *)

(** The double-quote character, as a one-character string. *)
Definition dquote : string := String (ascii_of_nat 34) EmptyString.

(** [new Array(n).join(sep)]: [n] empty slots joined by [sep]. *)
Definition Array_join (n : Z) (sep : string) : string :=
  String.concat sep (repeat EmptyString (Z.to_nat n)).

#[local] Unset Elimination Schemes.

(** [XMLSerializedValue]: a string, an insertion-ordered map, an array,
    or a plain object (its own enumerable keys in order). *)
Inductive XMLSerializedValue : Type :=
| XString (s : string)
| XMap (entries : list (string * XMLSerializedValue))
| XArray (items : list XMLSerializedValue)
| XObject (entries : list (string * XMLSerializedValue)).

#[local] Set Elimination Schemes.

Section ValueInduction.

Variable P : XMLSerializedValue -> Prop.
Hypothesis Hstring : forall s, P (XString s).
Hypothesis Hmap :
  forall entries, Forall (fun kv => P (snd kv)) entries -> P (XMap entries).
Hypothesis Harray : forall items, Forall P items -> P (XArray items).
Hypothesis Hobject :
  forall entries, Forall (fun kv => P (snd kv)) entries -> P (XObject entries).

(** Induction on a value with the property available for all children. *)
Fixpoint XMLSerializedValue_children_ind (v : XMLSerializedValue) : P v :=
  let entries_ind :=
    fix all (l : list (string * XMLSerializedValue))
        : Forall (fun kv => P (snd kv)) l :=
      match l with
      | [] => Forall_nil _
      | kv :: l' =>
          Forall_cons kv (XMLSerializedValue_children_ind (snd kv)) (all l')
      end in
  match v with
  | XString s => Hstring s
  | XMap entries => Hmap entries (entries_ind entries)
  | XArray items =>
      Harray items
        ((fix all (l : list XMLSerializedValue) : Forall P l :=
            match l with
            | [] => Forall_nil _
            | c :: l' =>
                Forall_cons c (XMLSerializedValue_children_ind c) (all l')
            end) items)
  | XObject entries => Hobject entries (entries_ind entries)
  end.

End ValueInduction.

(** [JSONWriterOptions] with all properties present. *)
Record JSONWriterOptions : Type :=
  mkOptions {
    prettyPrint : bool;
    indent : string;
    newline : string;
    offset : Z;
    noDoubleEncoding : bool
  }.

(** String coercion ([obj] in ['"' + obj + '"']): a string is itself, an
    array is its coerced items joined by commas, a map and a plain object
    are their class tags. *)
Fixpoint toString (obj : XMLSerializedValue) : string :=
  match obj with
  | XString s => s
  | XMap _ => "[object Map]"
  | XArray items => String.concat "," (map toString items)
  | XObject _ => "[object Object]"
  end.

Module JSONWriterImpl.

Local Open Scope string_scope.
Local Open Scope Z_scope.

(** [JSONWriterImpl._beginLine(options, level)]. *)
Definition _beginLine (options : JSONWriterOptions) (level : Z) : string :=
  if negb (prettyPrint options) then EmptyString
  else
    let indentLevel := offset options + level + 1 in
    if indentLevel >? 0 then Array_join indentLevel (indent options)
    else EmptyString.

(** [JSONWriterImpl._endLine(options, level)]. *)
Definition _endLine (options : JSONWriterOptions) (level : Z) : string :=
  if negb (prettyPrint options) then EmptyString
  else newline options.

(** [JSONWriterImpl._descendantCount(obj, count)]; the optional [count]
    is [None] when the argument is left out, and [count || 0] turns a
    missing or zero count into zero. The count is a JavaScript number:
    the integer arithmetic written here is that of the code as long as
    the counts stay below [2^53]; above, the code rounds, and its count
    still never decreases. *)
Fixpoint _descendantCount (obj : XMLSerializedValue) (count : option Z)
    {struct obj} : Z :=
  let count :=
    match count with
    | Some c => if c =? 0 then 0 else c
    | None => 0
    end in
  match obj with
  | XArray items =>
      (fix loop (l : list XMLSerializedValue) (count : Z) {struct l} : Z :=
         match l with
         | [] => count
         | val :: rest => loop rest (count + _descendantCount val (Some count))
         end) items count
  | XMap entries | XObject entries =>
      (fix loop (l : list (string * XMLSerializedValue)) (count : Z)
           {struct l} : Z :=
         match l with
         | [] => count
         | (_, val) :: rest =>
             loop rest (count + _descendantCount val (Some count))
         end) entries count
  | XString _ => count + 1
  end.

(** [JSONWriterImpl._isLeafNode(obj)]. *)
Definition _isLeafNode (obj : XMLSerializedValue) : bool :=
  _descendantCount obj None <=? 1.

(** [JSONWriterImpl._serializeObject(obj, options, level)]; [markup] is
    the string built up by the successive [+=]. The three branches are
    those of [isArray(obj)], of [isMap(obj) || isObject(obj)] and the
    final [else], taken by the shape of the value. *)
Fixpoint _serializeObject (obj : XMLSerializedValue)
    (options : JSONWriterOptions) (level : Z) {struct obj} : string :=
  let markup := EmptyString in
  let isLeaf := _isLeafNode obj in
  match obj with
  | XArray items =>
      let markup := markup ++ "[" in
      let len := Z.of_nat (List.length items) in
      let markup :=
        (fix loop (l : list XMLSerializedValue) (i : Z) (markup : string)
             {struct l} : string :=
           match l with
           | [] => markup
           | val :: rest =>
               let markup :=
                 markup ++ (_endLine options (level + 1)
                            ++ _beginLine options (level + 1)
                            ++ _serializeObject val options (level + 1)) in
               let markup := if i <? len - 1 then markup ++ "," else markup in
               loop rest (i + 1) markup
           end) items 0 markup in
      let markup :=
        markup ++ (_endLine options level ++ _beginLine options level) in
      markup ++ "]"
  | XMap entries | XObject entries =>
      let markup := markup ++ "{" in
      let len := Z.of_nat (List.length entries) in
      let markup :=
        (fix loop (l : list (string * XMLSerializedValue)) (i : Z)
             (markup : string) {struct l} : string :=
           match l with
           | [] => markup
           | (key, val) :: rest =>
               let markup :=
                 if isLeaf && prettyPrint options then markup ++ " "
                 else markup ++ (_endLine options (level + 1)
                                 ++ _beginLine options (level + 1)) in
               let markup := markup ++ (dquote ++ key ++ dquote ++ ":") in
               let markup :=
                 if prettyPrint options then markup ++ " " else markup in
               let markup :=
                 markup ++ _serializeObject val options (level + 1) in
               let markup := if i <? len - 1 then markup ++ "," else markup in
               loop rest (i + 1) markup
           end) entries 0 markup in
      let markup :=
        if isLeaf && prettyPrint options then markup ++ " "
        else markup ++ (_endLine options level ++ _beginLine options level) in
      markup ++ "}"
  | XString _ =>
      markup ++ (dquote ++ toString obj ++ dquote)
  end.

(** [JSONWriterImpl.serialize(node, writerOptions)] from the point where
    the map writer has produced [obj] and the defaults are applied. *)
Definition serialize (obj : XMLSerializedValue) (options : JSONWriterOptions)
    : string :=
  _beginLine options 0 ++ _serializeObject obj options 0.

(** The defaults [serialize] applies to the writer options: no
    pretty-printing, an indent of two spaces, a line feed as newline,
    offset 0. *)
Definition defaultOptions : JSONWriterOptions :=
  mkOptions false "  " (String (ascii_of_nat 10) EmptyString) 0 false.

End JSONWriterImpl.

(** ** Reference definitions for the JSON writer, in the specification's
    words *)

Module JSONSpec.

Local Open Scope string_scope.
Local Open Scope Z_scope.

(** The descendant count the specification describes: a scalar counts
    one, a composite counts the sum over its children and nothing for
    itself. *)
Fixpoint scalarCount (obj : XMLSerializedValue) : Z :=
  match obj with
  | XString _ => 1
  | XArray items =>
      fold_right (fun val acc => scalarCount val + acc) 0 items
  | XMap entries | XObject entries =>
      fold_right (fun kv acc => scalarCount (snd kv) + acc) 0 entries
  end.


(** One item of an array that stands at [level]: the end of the line
    before it, its indentation, and the item rendered at [level + 1]. *)
Definition itemText (options : JSONWriterOptions) (level : Z)
    (val : XMLSerializedValue) : string :=
  JSONWriterImpl._endLine options (level + 1)
  ++ JSONWriterImpl._beginLine options (level + 1)
  ++ JSONWriterImpl._serializeObject val options (level + 1).

(** What stands before an entry of a map, and before its closing brace:
    a single space for a leaf node in pretty-print mode, otherwise the
    end of the line and the indentation of [level]. *)
Definition entrySeparator (options : JSONWriterOptions) (isLeaf : bool)
    (level : Z) : string :=
  if isLeaf && prettyPrint options then " "
  else JSONWriterImpl._endLine options level
       ++ JSONWriterImpl._beginLine options level.

(** One entry of a map that stands at [level]: its separator, the quoted
    key and the colon, a space in pretty-print mode, and the value
    rendered at [level + 1]. *)
Definition entryText (options : JSONWriterOptions) (isLeaf : bool) (level : Z)
    (kv : string * XMLSerializedValue) : string :=
  entrySeparator options isLeaf (level + 1)
  ++ dquote ++ fst kv ++ dquote ++ ":"
  ++ (if prettyPrint options then " " else EmptyString)
  ++ JSONWriterImpl._serializeObject (snd kv) options (level + 1).

(** The compact JSON text of a value: a string between quotes, an array
    as its items joined by commas between brackets, a map or object as
    its quoted keys, each followed by a colon and its value, joined by
    commas between braces; no white space is added. *)
Fixpoint compactText (obj : XMLSerializedValue) : string :=
  match obj with
  | XString s => dquote ++ s ++ dquote
  | XArray items => "[" ++ String.concat "," (map compactText items) ++ "]"
  | XMap entries | XObject entries =>
      "{" ++ String.concat ","
               (map (fun kv =>
                       dquote ++ fst kv ++ dquote ++ ":"
                       ++ compactText (snd kv))
                    entries)
          ++ "}"
  end.

(** The options with another offset. *)
Definition withOffset (options : JSONWriterOptions) (k : Z)
    : JSONWriterOptions :=
  mkOptions (prettyPrint options) (indent options) (newline options) k
    (noDoubleEncoding options).

End JSONSpec.

(** ** The renderer on run-time values, with its exceptions

    [JSONWriterImpl] once more, now on the primitives, arrays and maps
    that reach it at run time and with the one exception its own text
    can raise: [new Array] refuses a length above [2^32 - 1] with a
    [RangeError]. String lengths and the depth of the call stack stay
    outside the model. *)

Module Runtime.

Local Open Scope string_scope.
Local Open Scope Z_scope.

(** The primitive values that are neither array nor map nor object
    whatever the type tests look at: [undefined] (what a hole of a
    sparse array yields), booleans and strings. [null] is left out: which
    branch it takes is decided inside the type tests of the utility
    library, which the sources do not give. *)
Inductive Primitive : Type :=
| PUndefined
| PBoolean (b : bool)
| PString (s : string).

(** String coercion of a primitive ([obj] in ['"' + obj + '"']). *)
Definition ToString (p : Primitive) : string :=
  match p with
  | PUndefined => "undefined"
  | PBoolean true => "true"
  | PBoolean false => "false"
  | PString s => s
  end.

#[local] Unset Elimination Schemes.

(** A run-time value: a primitive, a map with its entries in insertion
    order, or an array. These are the values [serialize] passes on, which
    asks the map writer for the format [map]. A plain object takes the
    branch of a map, but what [forEachObject] and [objectLength] of the
    utility library make of its keys (their order, and whether
    enumerating them can fail) is not in the sources: plain objects are
    left out of this model. *)
Inductive JSValue : Type :=
| JPrimitive (p : Primitive)
| JMap (entries : list (string * JSValue))
| JArray (items : list JSValue).

#[local] Set Elimination Schemes.

Section ValueInduction.

Variable P : JSValue -> Prop.
Hypothesis Hprimitive : forall p, P (JPrimitive p).
Hypothesis Hmap :
  forall entries, Forall (fun kv => P (snd kv)) entries -> P (JMap entries).
Hypothesis Harray : forall items, Forall P items -> P (JArray items).

(** Induction on a value with the property available for all children. *)
Fixpoint JSValue_children_ind (v : JSValue) : P v :=
  let entries_ind :=
    fix all (l : list (string * JSValue))
        : Forall (fun kv => P (snd kv)) l :=
      match l with
      | [] => Forall_nil _
      | kv :: l' => Forall_cons kv (JSValue_children_ind (snd kv)) (all l')
      end in
  match v with
  | JPrimitive p => Hprimitive p
  | JMap entries => Hmap entries (entries_ind entries)
  | JArray items =>
      Harray items
        ((fix all (l : list JSValue) : Forall P l :=
            match l with
            | [] => Forall_nil _
            | c :: l' => Forall_cons c (JSValue_children_ind c) (all l')
            end) items)
  end.

End ValueInduction.

(** The type tests of the utility library, on the run-time shape of a
    value: arrays and maps are objects too, primitives are not. *)
Definition isArray (obj : JSValue) : bool :=
  match obj with JArray _ => true | _ => false end.

Definition isMap (obj : JSValue) : bool :=
  match obj with JMap _ => true | _ => false end.

Definition isObject (obj : JSValue) : bool :=
  match obj with JPrimitive _ => false | _ => true end.

(** The exception the renderer can raise. *)
Inductive JSError : Type :=
| RangeError.

(** A computation that returns a value or throws. *)
Definition Completion (A : Type) : Type := (JSError + A)%type.

Definition ret {A : Type} (a : A) : Completion A := inr a.

Definition bind {A B : Type} (c : Completion A) (k : A -> Completion B)
    : Completion B :=
  match c with
  | inl e => inl e
  | inr a => k a
  end.

Notation "x <- c ;; k" := (bind c (fun x => k))
  (at level 61, c at next level, right associativity).

(** The largest length of an array. *)
Definition maxArrayLength : Z := 4294967295.

(** [new Array(n).join(sep)] for a positive integer [n]: [new Array]
    throws a [RangeError] when [n] is above the largest array length. *)
Definition Array_join (n : Z) (sep : string) : Completion string :=
  if n >? maxArrayLength then inl RangeError
  else ret (String.concat sep (repeat EmptyString (Z.to_nat n))).

(** [JSONWriterImpl._beginLine(options, level)]. *)
Definition _beginLine (options : JSONWriterOptions) (level : Z)
    : Completion string :=
  if negb (prettyPrint options) then ret EmptyString
  else
    let indentLevel := offset options + level + 1 in
    if indentLevel >? 0 then Array_join indentLevel (indent options)
    else ret EmptyString.

(** [JSONWriterImpl._endLine(options, level)]. *)
Definition _endLine (options : JSONWriterOptions) (level : Z) : string :=
  if negb (prettyPrint options) then EmptyString
  else newline options.

(** [JSONWriterImpl._descendantCount(obj, count)]. *)
Fixpoint _descendantCount (obj : JSValue) (count : option Z)
    {struct obj} : Z :=
  let count :=
    match count with
    | Some c => if c =? 0 then 0 else c
    | None => 0
    end in
  match obj with
  | JArray items =>
      (fix loop (l : list JSValue) (count : Z) {struct l} : Z :=
         match l with
         | [] => count
         | val :: rest => loop rest (count + _descendantCount val (Some count))
         end) items count
  | JMap entries =>
      (fix loop (l : list (string * JSValue)) (count : Z) {struct l} : Z :=
         match l with
         | [] => count
         | (_, val) :: rest =>
             loop rest (count + _descendantCount val (Some count))
         end) entries count
  | JPrimitive _ => count + 1
  end.

(** [JSONWriterImpl._isLeafNode(obj)]. *)
Definition _isLeafNode (obj : JSValue) : bool :=
  _descendantCount obj None <=? 1.

Section Loops.

Variable options : JSONWriterOptions.
Variable level : Z.

(** The recursive call [this._serializeObject(val, options, level + 1)]. *)
Variable serializeChild : JSValue -> Completion string.

(** The loop [for (const val of obj)] of the array branch, from index
    [i] on, with the text built so far. *)
Fixpoint serializeItems (len : Z) (l : list JSValue) (i : Z)
    (markup : string) {struct l} : Completion string :=
  match l with
  | [] => ret markup
  | val :: rest =>
      let endLine := _endLine options (level + 1) in
      beginLine <- _beginLine options (level + 1) ;;
      text <- serializeChild val ;;
      let markup := markup ++ (endLine ++ beginLine ++ text) in
      let markup := if i <? len - 1 then markup ++ "," else markup in
      serializeItems len rest (i + 1) markup
  end.

(** The loop [for (const [key, val] of forEachObject(obj))] of the map
    and object branch. *)
Fixpoint serializeEntries (isLeaf : bool) (len : Z)
    (l : list (string * JSValue)) (i : Z) (markup : string) {struct l}
    : Completion string :=
  match l with
  | [] => ret markup
  | (key, val) :: rest =>
      markup <-
        (if isLeaf && prettyPrint options then ret (markup ++ " ")
         else
           let endLine := _endLine options (level + 1) in
           beginLine <- _beginLine options (level + 1) ;;
           ret (markup ++ (endLine ++ beginLine))) ;;
      let markup := markup ++ (dquote ++ key ++ dquote ++ ":") in
      let markup := if prettyPrint options then markup ++ " " else markup in
      text <- serializeChild val ;;
      let markup := markup ++ text in
      let markup := if i <? len - 1 then markup ++ "," else markup in
      serializeEntries isLeaf len rest (i + 1) markup
  end.

End Loops.

(** [JSONWriterImpl._serializeObject(obj, options, level)]. *)
Fixpoint _serializeObject (obj : JSValue) (options : JSONWriterOptions)
    (level : Z) {struct obj} : Completion string :=
  let markup := EmptyString in
  let isLeaf := _isLeafNode obj in
  match obj with
  | JArray items =>
      let markup := markup ++ "[" in
      let len := Z.of_nat (List.length items) in
      markup <-
        serializeItems options level
          (fun val => _serializeObject val options (level + 1))
          len items 0 markup ;;
      let endLine := _endLine options level in
      beginLine <- _beginLine options level ;;
      let markup := markup ++ (endLine ++ beginLine) in
      ret (markup ++ "]")
  | JMap entries =>
      let markup := markup ++ "{" in
      let len := Z.of_nat (List.length entries) in
      markup <-
        serializeEntries options level
          (fun val => _serializeObject val options (level + 1))
          isLeaf len entries 0 markup ;;
      markup <-
        (if isLeaf && prettyPrint options then ret (markup ++ " ")
         else
           let endLine := _endLine options level in
           beginLine <- _beginLine options level ;;
           ret (markup ++ (endLine ++ beginLine))) ;;
      ret (markup ++ "}")
  | JPrimitive p =>
      ret (markup ++ (dquote ++ ToString p ++ dquote))
  end.

(** [JSONWriterImpl.serialize(node, writerOptions)] from the point where
    the map writer has produced [obj] and the defaults are applied. *)
Definition serialize (obj : JSValue) (options : JSONWriterOptions)
    : Completion string :=
  beginLine <- _beginLine options 0 ;;
  text <- _serializeObject obj options 0 ;;
  ret (beginLine ++ text).

(** A run-time value as a value of the declared type: every primitive
    becomes the string it is coerced to. *)
Fixpoint toSerialized (obj : JSValue) : XMLSerializedValue :=
  match obj with
  | JPrimitive p => XString (ToString p)
  | JMap entries =>
      XMap (map (fun kv => (fst kv, toSerialized (snd kv))) entries)
  | JArray items => XArray (map toSerialized items)
  end.

(** The number of containers nested in a value: none for a primitive,
    one more than the deepest child for a container. *)
Fixpoint height (obj : JSValue) : Z :=
  match obj with
  | JPrimitive _ => 0
  | JArray items =>
      1 + fold_right (fun val acc => Z.max (height val) acc) 0 items
  | JMap entries =>
      1 + fold_right (fun kv acc => Z.max (height (snd kv)) acc) 0 entries
  end.

(** No line of the rendering of [obj] at [level] asks for more
    indentation than an array can be long: pretty-printing is off, or
    the deepest [indentLevel] is within the largest array length. *)
Definition indentInRange (options : JSONWriterOptions) (level : Z)
    (obj : JSValue) : Prop :=
  prettyPrint options = false
  \/ offset options + level + height obj + 1 <= maxArrayLength.

End Runtime.

(** ** Sample trees and values *)

Module Samples.

(** A document with two children, and a second document with one. *)
Definition a1 : Node := mkNode 1 [].
Definition a2 : Node := mkNode 2 [].
Definition b1 : Node := mkNode 11 [].
Definition docA : Node := mkNode 0 [a1; a2].
Definition docB : Node := mkNode 10 [b1].

(** A node that belongs to no document. *)
Definition orphan : Node := mkNode 20 [].

(** The owning documents: [docA] for [a1] and [a2], [docB] for [b1],
    null for the documents themselves and for [orphan]. *)
Definition ownerDocument (n : Node) : option Node :=
  match nodeId n with
  | 1%nat | 2%nat => Some docA
  | 11%nat => Some docB
  | _ => None
  end.

(** The line feed, as a one-character string. *)
Definition lineFeed : string := String (ascii_of_nat 10) EmptyString.

(** Pretty-printing with the default indent, newline and offset. *)
Definition prettyOptions : JSONWriterOptions :=
  mkOptions true "  " lineFeed 0 false.

(** Compact output under two different settings of indent, newline and
    offset. *)
Definition compactOptions : JSONWriterOptions :=
  mkOptions false "  " lineFeed 0 false.

(** Pretty-printing with an offset of [2^32], one more than the largest
    array length. *)
Definition hugeOffsetOptions : JSONWriterOptions :=
  mkOptions true "  " lineFeed 4294967296 false.

(** An array as it can arrive at run time: a hole, a boolean and a map
    with one entry. *)
Definition mixedArray : Runtime.JSValue :=
  Runtime.JArray
    [Runtime.JPrimitive Runtime.PUndefined;
     Runtime.JPrimitive (Runtime.PBoolean true);
     Runtime.JMap [("a", Runtime.JPrimitive (Runtime.PString "1"))]].

(** The map with the single entry [a] of value [1]. *)
Definition singleEntry : XMLSerializedValue := XMap [("a", XString "1")].

(** An array of two strings; an array of a string and an empty array. *)
Definition twoStrings : XMLSerializedValue :=
  XArray [XString "a"; XString "b"].
Definition stringAndEmpty : XMLSerializedValue :=
  XArray [XString "a"; XArray []].

End Samples.

(** Three documents with three, two and one children, and one child of
    each. *)
Module Chain.

Definition c1 : Node := mkNode 31 [].
Definition c2 : Node := mkNode 41 [].
Definition c3 : Node := mkNode 51 [].
Definition doc3 : Node := mkNode 30 [c1; mkNode 32 []; mkNode 33 []].
Definition doc2 : Node := mkNode 40 [c2; mkNode 42 []].
Definition doc1 : Node := mkNode 50 [c3].

(** The owning documents of [c1], [c2] and [c3]. *)
Definition ownerDocument (n : Node) : option Node :=
  match nodeId n with
  | 31%nat => Some doc3
  | 41%nat => Some doc2
  | 51%nat => Some doc1
  | _ => None
  end.

End Chain.

(** * Properties of the tree-order utilities *)

Section Traversal.

Import Utility TreeOrder.

Context {S R : Type}.
Variable func : Node -> S -> option R * S.

Lemma visitUntil_app (l1 l2 : list Node) (s : S) :
  visitUntil func (l1 ++ l2) s =
  match visitUntil func l1 s with
  | (Some r, s') => (Some r, s')
  | (None, s') => visitUntil func l2 s'
  end.
Proof.
  revert s; induction l1 as [|n l1 IH]; intros s; simpl.
  - reflexivity.
  - destruct (func n s) as [[r|] s']; [reflexivity | apply IH].
Qed.

(** The traversal visits exactly the preorder sequence of descendants,
    up to the first truthy result. *)
Lemma forEachDescendant_run (node : Node) :
  forall s,
    forEachDescendant node func s = visitUntil func (descendants node) s.
Proof.
  induction node as [id children IH] using Node_children_ind.
  simpl. induction IH as [|child rest Hchild _ IHrest]; intros s; simpl.
  - reflexivity.
  - destruct (func child s) as [[r|] s1]; [reflexivity|].
    rewrite visitUntil_app, <- Hchild.
    destruct (forEachDescendant child func s1) as [[r|] s2];
      [reflexivity | apply IHrest].
Qed.

End Traversal.

Section TreePosition.

Import Utility TreeOrder.

(** [isDescendantOf] is membership, by identity, in the preorder
    sequence of descendants. *)
Lemma isDescendantOf_descendants (node other : Node) :
  isDescendantOf node other
  = existsb (fun c => same c other) (descendants node).
Proof.
  induction node as [id children IH] using Node_children_ind.
  simpl. induction IH as [|child rest Hchild _ IHrest]; simpl.
  - reflexivity.
  - rewrite existsb_app, <- Hchild, <- IHrest.
    destruct (same child other); [reflexivity|].
    destruct (isDescendantOf child other); reflexivity.
Qed.

(** The callback of [treePosition] never stops the walk: it counts every
    node it is given and remembers whether [node] was among them. *)
Lemma treePosition_visit_run (node : Node) (l : list Node) :
  forall pos found,
    visitUntil (treePosition_visit node) l (pos, found) =
    (None, (pos + Z.of_nat (List.length l),
            found || existsb (fun c => same c node) l)).
Proof.
  induction l as [|n l IH]; intros pos found.
  - simpl. now rewrite Z.add_0_r, orb_false_r.
  - cbn [visitUntil treePosition_visit]. rewrite IH.
    f_equal. f_equal.
    + cbn [List.length]. lia.
    + cbn [existsb]. destruct found, (same n node); reflexivity.
Qed.

(** What [treePosition] computes: the number of all descendants of
    [root] when [node] is one of them, and [-1] otherwise. *)
Lemma treePosition_value (root node : Node) :
  treePosition (Some root) node =
  if isDescendantOf root node then Z.of_nat (List.length (descendants root))
  else -1.
Proof.
  unfold treePosition.
  rewrite forEachDescendant_run, treePosition_visit_run.
  rewrite isDescendantOf_descendants. reflexivity.
Qed.

(** [treePosition] answers [-1] exactly for the nodes that are not
    descendants of [root]. *)
Lemma treePosition_absent_iff (root node : Node) :
  treePosition (Some root) node = -1 <-> isDescendantOf root node = false.
Proof.
  rewrite treePosition_value.
  destruct (isDescendantOf root node); split; intros H; try reflexivity;
    try discriminate; lia.
Qed.

(** The two tests are mirror images of each other, whatever the nodes. *)
Lemma isPreceding_isFollowing_swap
    (ownerDocument : Node -> option Node) (a b : Node) :
  isPreceding ownerDocument a b = isFollowing ownerDocument b a.
Proof.
  unfold isPreceding, isFollowing.
  rewrite orb_comm.
  destruct ((treePosition (ownerDocument b) b =? -1)
            || (treePosition (ownerDocument a) a =? -1)); [reflexivity|].
  now rewrite Z.gtb_ltb.
Qed.

(** Two nodes found in one and the same document get the same position,
    so neither precedes nor follows the other. *)
Lemma same_document_never_ordered
    (ownerDocument : Node -> option Node) (doc a b : Node) :
  ownerDocument a = Some doc -> ownerDocument b = Some doc ->
  isPreceding ownerDocument a b = false
  /\ isFollowing ownerDocument a b = false.
Proof.
  intros Ha Hb. unfold isPreceding, isFollowing.
  rewrite Ha, Hb, !treePosition_value.
  destruct (isDescendantOf doc a), (isDescendantOf doc b);
    rewrite ?orb_true_r; cbn [orb Z.eqb]; try (split; reflexivity).
  destruct (Z.of_nat (List.length (descendants doc)) =? -1); cbn [orb];
    [split; reflexivity|].
  rewrite Z.gtb_ltb, Z.ltb_irrefl. split; reflexivity.
Qed.

(** C8. [forEachDescendant(node, visit)] walks the descendants of [node]
    (not [node] itself) depth first in preorder: it runs [visit] over the
    sequence "each child in stored order, followed by that child's own
    descendants", threading the callback's state, stops at the first
    truthy result and returns it, and returns [undefined] when the
    sequence is exhausted. For a test without side effects the nodes
    actually visited form a prefix of that sequence: all of it when the
    result is [undefined], otherwise the nodes up to and including the
    first one with a truthy result. *)
Theorem forEachDescendant_preorder_first_truthy :
  (forall (S R : Type) (func : Node -> S -> option R * S) (node : Node) (s : S),
      forEachDescendant node func s = visitUntil func (descendants node) s)
  /\ (forall id child rest,
         descendants (mkNode id (child :: rest)) =
         child :: descendants child ++ descendants (mkNode id rest))
  /\ (forall (R : Type) (visit : Node -> option R) (node : Node),
         exists rest,
           descendants node =
             snd (forEachDescendant node (traced visit) []) ++ rest
           /\ match fst (forEachDescendant node (traced visit) []) with
              | None =>
                  rest = []
                  /\ Forall (fun n => visit n = None) (descendants node)
              | Some r =>
                  exists before n,
                    snd (forEachDescendant node (traced visit) [])
                    = before ++ [n]
                    /\ Forall (fun n => visit n = None) before
                    /\ visit n = Some r
              end).
Proof.
  split; [|split].
  - intros. apply forEachDescendant_run.
  - reflexivity.
  - intros R visit node. rewrite forEachDescendant_run.
    assert (G : forall l log,
      exists rest,
        log ++ l = snd (visitUntil (traced visit) l log) ++ rest
        /\ match fst (visitUntil (traced visit) l log) with
           | None => rest = [] /\ Forall (fun n => visit n = None) l
           | Some r =>
               exists before n,
                 snd (visitUntil (traced visit) l log) = log ++ before ++ [n]
                 /\ Forall (fun n => visit n = None) before
                 /\ visit n = Some r
           end).
    { induction l as [|n l IH]; intros log.
      - exists []. simpl. split; [reflexivity|]. split; constructor.
      - cbn [visitUntil traced]. destruct (visit n) as [r|] eqn:Hn.
        + exists l. cbn [fst snd]. split.
          * now rewrite <- app_assoc.
          * exists [], n. repeat split; [constructor | exact Hn].
        + destruct (IH (log ++ [n])) as [rest [Heq Hres]].
          exists rest. split.
          * rewrite <- Heq, <- app_assoc. reflexivity.
          * destruct (fst (visitUntil (traced visit) l (log ++ [n]))) as [r|].
            -- destruct Hres as [before [m [Hs [Hb Hm]]]].
               exists (n :: before), m. repeat split.
               ++ rewrite Hs, <- app_assoc. reflexivity.
               ++ constructor; assumption.
               ++ exact Hm.
            -- destruct Hres as [-> Hall]. split; [reflexivity|].
               constructor; assumption. }
    destruct (G (descendants node) []) as [rest [Heq Hres]].
    exists rest. split; [exact Heq|].
    destruct (fst (visitUntil (traced visit) (descendants node) [])) as [r|];
      exact Hres.
Qed.

(** C1. [treePosition] goes on counting after it has found the node: for
    a descendant of [root] it answers the number of all descendants of
    [root]. In the document [docA] with the two children [a1] and [a2],
    the node [a1] is a descendant and no node is visited before it, so
    its position by the specification is 1, and [treePosition] answers
    2. *)
Theorem treePosition_counts_past_the_node :
  (forall root node,
      treePosition (Some root) node =
      if isDescendantOf root node
      then Z.of_nat (List.length (descendants root))
      else -1)
  /\ isDescendantOf Samples.docA Samples.a1 = true
  /\ specTreePosition Samples.docA Samples.a1 = 1
  /\ treePosition (Some Samples.docA) Samples.a1 = 2.
Proof.
  split; [exact treePosition_value|].
  repeat split; reflexivity.
Qed.

(** C2. The node [a1] lives in document [docA] and [b1] in another
    document [docB], yet [isPreceding a1 b1] is true: the two positions
    are looked up in two different trees and compared all the same. In
    one document, [a1] stands before [a2] (positions 1 and 2 by the
    specification), yet [isPreceding a2 a1] and [isFollowing a1 a2] are
    false, since [treePosition] gives both nodes the position 2; the
    same happens for any two nodes of one document. *)
Theorem isPreceding_compares_unrelated_positions :
  (forall ownerDocument doc a b,
      ownerDocument a = Some doc -> ownerDocument b = Some doc ->
      isPreceding ownerDocument a b = false
      /\ isFollowing ownerDocument a b = false)
  /\ Samples.ownerDocument Samples.a1 = Some Samples.docA
  /\ Samples.ownerDocument Samples.b1 = Some Samples.docB
  /\ sameOwnerDocument Samples.ownerDocument Samples.a1 Samples.b1 = false
  /\ treePosition (Samples.ownerDocument Samples.a1) Samples.a1 = 2
  /\ treePosition (Samples.ownerDocument Samples.b1) Samples.b1 = 1
  /\ isPreceding Samples.ownerDocument Samples.a1 Samples.b1 = true
  /\ sameOwnerDocument Samples.ownerDocument Samples.a2 Samples.a1 = true
  /\ specTreePosition Samples.docA Samples.a1 = 1
  /\ specTreePosition Samples.docA Samples.a2 = 2
  /\ isPreceding Samples.ownerDocument Samples.a2 Samples.a1 = false
  /\ isFollowing Samples.ownerDocument Samples.a1 Samples.a2 = false.
Proof.
  split; [exact same_document_never_ordered|].
  repeat split; reflexivity.
Qed.

(** C7. [isPreceding a b] and [isFollowing b a] agree for all nodes. For
    [a1] in document [docA] and [b1] in the different document [docB]
    (neither node occurs in the other's tree) both are true, where nodes
    of different trees should give false. *)
Theorem isPreceding_true_across_trees :
  (forall ownerDocument a b,
      isPreceding ownerDocument a b = isFollowing ownerDocument b a)
  /\ sameOwnerDocument Samples.ownerDocument Samples.a1 Samples.b1 = false
  /\ isDescendantOf Samples.docA Samples.a1 = true
  /\ isDescendantOf Samples.docA Samples.b1 = false
  /\ isDescendantOf Samples.docB Samples.b1 = true
  /\ isDescendantOf Samples.docB Samples.a1 = false
  /\ isPreceding Samples.ownerDocument Samples.a1 Samples.b1 = true
  /\ isFollowing Samples.ownerDocument Samples.b1 Samples.a1 = true.
Proof.
  split; [exact isPreceding_isFollowing_swap|].
  repeat split; reflexivity.
Qed.

(** C10. [treePosition] with a null root answers [-1] without looking at
    anything; hence, when the owner document of either node is null,
    [isPreceding] and [isFollowing] both return false. *)
Theorem null_ownerDocument_gives_false
    (ownerDocument : Node -> option Node) (node other : Node) :
  ownerDocument node = None \/ ownerDocument other = None ->
  treePosition None node = -1
  /\ treePosition None other = -1
  /\ isPreceding ownerDocument node other = false
  /\ isFollowing ownerDocument node other = false.
Proof.
  intros H. split; [reflexivity|]. split; [reflexivity|].
  unfold isPreceding, isFollowing.
  destruct H as [H|H]; rewrite H; cbn [treePosition Z.eqb orb];
    rewrite ?orb_true_r; split; reflexivity.
Qed.

Lemma null_ownerDocument_gives_false_witness :
  (Samples.ownerDocument Samples.orphan = None
   \/ Samples.ownerDocument Samples.a1 = None)
  /\ treePosition None Samples.orphan = -1
  /\ treePosition None Samples.a1 = -1
  /\ isPreceding Samples.ownerDocument Samples.orphan Samples.a1 = false
  /\ isFollowing Samples.ownerDocument Samples.orphan Samples.a1 = false.
Proof.
  split.
  - left; reflexivity.
  - apply (null_ownerDocument_gives_false
             Samples.ownerDocument Samples.orphan Samples.a1).
    left; reflexivity.
Defined.

End TreePosition.

(** * Properties of [extractNames] *)

Section ExtractNames.

Import Utility.
Import DOMImplementation.

Lemma strictEq_true_iff (a b : option string) :
  strictEq a b = true <-> a = b.
Proof.
  destruct a as [x|], b as [y|]; simpl; try (split; congruence).
  rewrite String.eqb_eq. split; congruence.
Qed.

Lemma strictEq_false_iff (a b : option string) :
  strictEq a b = false <-> a <> b.
Proof.
  rewrite <- strictEq_true_iff. destruct (strictEq a b); split; congruence.
Qed.

(** After [if (!namespace) namespace = null], the namespace is falsy
    exactly when it is null. *)
Lemma normalized_namespace_falsy (namespace : option string) :
  let ns := if negb (truthy namespace) then None else namespace in
  truthy ns = false <-> ns = None.
Proof.
  destruct namespace as [s|]; simpl; [|tauto].
  destruct (String.eqb s EmptyString) eqn:E; simpl; [tauto|].
  rewrite E. simpl. split; congruence.
Qed.

Lemma split_not_nil (sep : ascii) (s : string) : split sep s <> [].
Proof.
  destruct s as [|c s]; simpl; [discriminate|].
  destruct (Ascii.eqb c sep); [discriminate|].
  destruct (split sep s); discriminate.
Qed.

(** A piece without colon is its own only piece. *)
Lemma split_no_colon (s : string) :
  List.length (split ":" s) = 1%nat -> split ":" s = [s].
Proof.
  induction s as [|c s IH]; simpl; [reflexivity|].
  pose proof (split_not_nil ":" s) as Hne.
  destruct (Ascii.eqb c ":").
  - destruct (split ":" s); [congruence | discriminate].
  - destruct (split ":" s) as [|piece pieces]; [congruence|].
    simpl. intros H. destruct pieces; [|discriminate].
    specialize (IH eq_refl). congruence.
Qed.

(** Two pieces without colon, joined by a colon, split into these two. *)
Lemma split_single_colon (p l : string) :
  List.length (split ":" p) = 1%nat -> List.length (split ":" l) = 1%nat ->
  split ":" (p ++ ":" ++ l)%string = [p; l].
Proof.
  intros Hp Hl. apply split_no_colon in Hl.
  change (":" ++ l)%string with (String ":" l).
  induction p as [|c p IH]; simpl.
  - now rewrite Hl.
  - simpl in Hp. pose proof (split_not_nil ":" p) as Hne.
    destruct (Ascii.eqb c ":").
    + destruct (split ":" p); [congruence | discriminate].
    + destruct (split ":" p) as [|piece pieces] eqn:E; [congruence|].
      destruct pieces; [|discriminate].
      rewrite (IH eq_refl).
      assert (Hpiece : split ":" p = [p])
        by (apply split_no_colon; rewrite E; reflexivity).
      congruence.
Qed.

(** C5 (as amended). A qualified name that fails [validateQName] makes
    [extractNames] raise that error. For a name that passes, with an
    empty namespace treated as null, with [prefix] and [localName] the
    two pieces of the name around its single colon ([prefix] null and
    [localName] the whole name when there is no colon): [extractNames]
    raises [NamespaceError] exactly when a non-empty prefix comes with a
    null namespace, or the prefix ["xml"] with a namespace other than
    the XML namespace, or the prefix ["xmlns"] or the name ["xmlns"]
    with a namespace other than the XMLNS namespace, or the XMLNS
    namespace with a name that is neither ["xmlns"] nor prefixed by
    ["xmlns"]; otherwise it returns the namespace, the prefix and the
    local name. With the names of the examples accepted by the name
    grammar, [extractNames(null, "xmlns")] and
    [extractNames(null, "p:local")] raise [NamespaceError], and
    [extractNames(XMLNS, "xmlns")] and [extractNames(XML, "xml:lang")]
    succeed. *)
Theorem extractNames_namespace_rules :
  (forall (XMLSpec_Name XMLSpec_QName : string -> bool)
          (namespace : option string) (qualifiedName : string),
      let result :=
        extractNames XMLSpec_Name XMLSpec_QName namespace qualifiedName in
      let ns := if negb (truthy namespace) then None else namespace in
      let parts := split ":" qualifiedName in
      let prefix :=
        if Nat.eqb (List.length parts) 2 then nth_error parts 0 else None in
      let localName :=
        if Nat.eqb (List.length parts) 2 then nth 1 parts EmptyString
        else qualifiedName in
      (forall e,
          validateQName XMLSpec_Name XMLSpec_QName qualifiedName = inl e ->
          result = inl e)
      /\ (validateQName XMLSpec_Name XMLSpec_QName qualifiedName = inr tt ->
          (result = inl NamespaceError <->
             (truthy prefix = true /\ ns = None)
             \/ (prefix = Some "xml" /\ ns <> Some Namespace.XML)
             \/ ((prefix = Some "xmlns" \/ qualifiedName = "xmlns")
                 /\ ns <> Some Namespace.XMLNS)
             \/ (ns = Some Namespace.XMLNS
                 /\ prefix <> Some "xmlns" /\ qualifiedName <> "xmlns"))
          /\ (result <> inl NamespaceError ->
              result = inr (mkNames ns prefix localName)))
      /\ (forall p l,
             List.length (split ":" p) = 1%nat ->
             List.length (split ":" l) = 1%nat ->
             qualifiedName = (p ++ ":" ++ l)%string ->
             prefix = Some p /\ localName = l)
      /\ (List.length (split ":" qualifiedName) = 1%nat ->
          prefix = None /\ localName = qualifiedName))
  /\ extractNames XMLSpec.Name XMLSpec.QName None "xmlns" = inl NamespaceError
  /\ extractNames XMLSpec.Name XMLSpec.QName None "p:local" = inl NamespaceError
  /\ extractNames XMLSpec.Name XMLSpec.QName (Some Namespace.XMLNS) "xmlns"
     = inr (mkNames (Some Namespace.XMLNS) None "xmlns")
  /\ extractNames XMLSpec.Name XMLSpec.QName (Some Namespace.XML) "xml:lang"
     = inr (mkNames (Some Namespace.XML) (Some "xml") "lang").
Proof.
  split; [|repeat split; reflexivity].
  intros XMLSpec_Name XMLSpec_QName namespace qualifiedName.
  cbv zeta. split; [|split; [|split]].
  - intros e He. unfold extractNames. now rewrite He.
  - intros Hvalid. unfold extractNames. rewrite Hvalid.
    pose proof (normalized_namespace_falsy namespace) as Hns.
    cbv zeta in Hns |- *.
    set (ns := if negb (truthy namespace) then None else namespace) in *.
    set (parts := split ":" qualifiedName).
    set (prefix :=
           if Nat.eqb (List.length parts) 2 then nth_error parts 0 else None).
    set (localName :=
           if Nat.eqb (List.length parts) 2 then nth 1 parts EmptyString
           else qualifiedName).
    destruct (truthy prefix) eqn:Hp;
    destruct (truthy ns) eqn:Hn;
    destruct (strictEq prefix (Some "xml")) eqn:Hxml;
    destruct (strictEq ns (Some Namespace.XML)) eqn:Hnsxml;
    destruct (strictEq ns (Some Namespace.XMLNS)) eqn:Hnsxmlns;
    destruct (strictEq prefix (Some "xmlns")) eqn:Hxmlns;
    destruct (String.eqb qualifiedName "xmlns") eqn:Hq;
    cbn [andb orb negb];
    rewrite ?strictEq_true_iff, ?strictEq_false_iff in *;
    rewrite ?String.eqb_eq, ?String.eqb_neq in *;
    (split; [split; [intros Hr; try discriminate Hr | intros Hr]
            | intros Hr; try reflexivity;
              try (exfalso; apply Hr; reflexivity)]);
    try reflexivity;
    try (exfalso; intuition congruence);
    try solve [intuition congruence].
  - intros p l Hp Hl ->. rewrite (split_single_colon p l Hp Hl).
    simpl. split; reflexivity.
  - intros H. rewrite H. simpl. split; reflexivity.
Qed.

Lemma extractNames_namespace_rules_witness :
  validateQName XMLSpec.Name XMLSpec.QName "xml:lang" = inr tt
  /\ extractNames XMLSpec.Name XMLSpec.QName (Some Namespace.XML) "xml:lang"
     = inr (mkNames (Some Namespace.XML) (Some "xml") "lang").
Proof.
  split; [reflexivity|].
  destruct extractNames_namespace_rules as [general _].
  destruct (general XMLSpec.Name XMLSpec.QName (Some Namespace.XML) "xml:lang")
    as [_ [valid _]].
  destruct (valid eq_refl) as [_ otherwise].
  apply otherwise. intros H. vm_compute in H. discriminate H.
Defined.

(** C5, the claim as first stated. The empty string is not null, the
    prefix ["p"] is neither ["xml"] nor ["xmlns"], the name is not
    ["xmlns"] and the empty string is not the XMLNS namespace: none of
    the four listed cases applies to [extractNames("", "p:local")], and
    the name passes validation; yet the call raises [NamespaceError],
    because an empty namespace is first replaced by null. *)
Lemma extractNames_empty_namespace_raises :
  extractNames XMLSpec.Name XMLSpec.QName (Some EmptyString) "p:local"
  = inl NamespaceError
  /\ validateQName XMLSpec.Name XMLSpec.QName "p:local" = inr tt
  /\ Some EmptyString <> (None : option string)
  /\ split ":" "p:local" = ["p"; "local"]
  /\ "p" <> "xml" /\ "p" <> "xmlns" /\ "p:local" <> "xmlns"
  /\ EmptyString <> Namespace.XMLNS.
Proof.
  repeat split; try reflexivity; discriminate.
Qed.

End ExtractNames.

(** * Properties of the JSON writer *)

Section Strings.

Local Open Scope string_scope.

Lemma string_app_assoc (a b c : string) : (a ++ b) ++ c = a ++ b ++ c.
Proof.
  induction a as [|x a IH]; simpl; [reflexivity | now rewrite IH].
Qed.

Lemma string_app_nil_r (a : string) : a ++ EmptyString = a.
Proof.
  induction a as [|x a IH]; simpl; [reflexivity | now rewrite IH].
Qed.


End Strings.

Section Layout.

Import JSONWriterImpl JSONSpec.
Local Open Scope string_scope.
Local Open Scope Z_scope.

Variable options : JSONWriterOptions.

Lemma concat_cons (sep x y : string) (l : list string) :
  String.concat sep (x :: y :: l) = x ++ sep ++ String.concat sep (y :: l).
Proof. reflexivity. Qed.

(** States the invariant [L] of the loop that runs over [items] from
    index 0: started at index [i] on the last elements [l] of a sequence
    of length [len], it appends to [markup] the texts of [l] joined by
    commas. *)
Ltac loop_invariant items len text :=
  match goal with
  | |- context [?loop items 0 _] =>
      assert (L : forall l i markup,
                 i + Z.of_nat (List.length l) = len ->
                 loop l i markup
                 = markup ++ String.concat "," (map text l))
  end.

(** The comma test of the loop, on the last element and before it. *)
Ltac comma_test len :=
  match goal with
  | H : _ + Z.of_nat (List.length [_]) = len |- context [?i <? len - 1] =>
      replace (i <? len - 1) with false
        by (symmetry; apply Z.ltb_ge; cbn [List.length] in H; lia)
  | H : _ + Z.of_nat (List.length (_ :: _ :: _)) = len
    |- context [?i <? len - 1] =>
      replace (i <? len - 1) with true
        by (symmetry; apply Z.ltb_lt; cbn [List.length] in H; lia)
  end.

(** An array is its items, each on a line of its own in pretty mode,
    joined by commas, between brackets. *)
Lemma serializeObject_array (items : list XMLSerializedValue) (level : Z) :
  _serializeObject (XArray items) options level =
  "[" ++ String.concat "," (map (itemText options level) items)
      ++ _endLine options level ++ _beginLine options level ++ "]".
Proof.
  cbn [_serializeObject]. cbv zeta.
  set (len := Z.of_nat (List.length items)).
  loop_invariant items len (itemText options level).
  { induction l as [|val rest IH]; intros i markup Hlen.
    - simpl. now rewrite string_app_nil_r.
    - destruct rest as [|val' rest']; comma_test len.
      + reflexivity.
      + rewrite IH by (cbn [List.length] in *; lia).
        cbn [map]. rewrite concat_cons. unfold itemText.
        now rewrite !string_app_assoc. }
  rewrite L by (subst len; lia).
  now rewrite !string_app_assoc.
Qed.

(** A map or object is its entries joined by commas between braces; the
    entries and the closing brace of a leaf node in pretty mode are
    preceded by a single space, otherwise by a new line. *)
Lemma serializeObject_entries
    (obj : XMLSerializedValue) (entries : list (string * XMLSerializedValue))
    (level : Z) :
  obj = XMap entries \/ obj = XObject entries ->
  _serializeObject obj options level =
  "{" ++ String.concat ","
           (map (entryText options (_isLeafNode obj) level) entries)
      ++ entrySeparator options (_isLeafNode obj) level ++ "}".
Proof.
  intros Hobj.
  set (isLeaf := _isLeafNode obj).
  set (len := Z.of_nat (List.length entries)).
  assert (Hloop : forall loop,
             (forall l i markup,
                 i + Z.of_nat (List.length l) = len ->
                 loop l i markup
                 = markup
                   ++ String.concat ","
                        (map (entryText options isLeaf level) l)) ->
             (if isLeaf && prettyPrint options
              then loop entries 0 (EmptyString ++ "{") ++ " "
              else loop entries 0 (EmptyString ++ "{")
                   ++ _endLine options level ++ _beginLine options level)
             ++ "}"
             = "{" ++ String.concat ","
                        (map (entryText options isLeaf level) entries)
                   ++ entrySeparator options isLeaf level ++ "}").
  { intros loop L. rewrite L by (subst len; lia). unfold entrySeparator.
    destruct (isLeaf && prettyPrint options); now rewrite !string_app_assoc. }
  destruct Hobj as [Hobj|Hobj]; rewrite Hobj; cbn [_serializeObject];
    cbv zeta; rewrite <- Hobj; fold isLeaf; fold len; apply Hloop.
  all: induction l as [|[key val] rest IH]; intros i markup Hlen;
    [ simpl; now rewrite string_app_nil_r | ].
  all: destruct rest as [|kv' rest']; comma_test len;
    [ | rewrite IH by (cbn [List.length] in *; lia) ];
    cbn [map]; rewrite ?concat_cons;
    unfold entryText, entrySeparator; cbn [String.concat fst snd];
    destruct (isLeaf && prettyPrint options), (prettyPrint options);
    rewrite ?string_app_assoc, ?string_app_nil_r; reflexivity.
Qed.

End Layout.

Section JSONWriter.

Import JSONWriterImpl JSONSpec.
Local Open Scope string_scope.
Local Open Scope Z_scope.



(** C3. For the array of the two strings [a] and [b] the count by the
    specification (one per scalar, a composite the sum of its children)
    is 2, and [_descendantCount] returns 3: each recursive call starts
    from the running count and its result is then added to that same
    count. For the array of a string and an empty array the sum is 1, a
    leaf by the specification, while [_descendantCount] returns 2 and
    [_isLeafNode] says it is no leaf. *)
Theorem descendantCount_adds_running_count_twice :
  scalarCount Samples.twoStrings = 2
  /\ _descendantCount Samples.twoStrings None = 3
  /\ scalarCount Samples.stringAndEmpty = 1
  /\ _descendantCount Samples.stringAndEmpty None = 2
  /\ _isLeafNode Samples.stringAndEmpty = false.
Proof.
  repeat split; reflexivity.
Qed.

(** C4 (as amended). With [prettyPrint] set, a map with a single
    string-valued entry is a leaf node and is rendered on one line, with
    single spaces inside the braces and one space after the colon:
    [{ "key": "value" }]. *)
Theorem single_entry_map_on_one_line
    (key s : string) (options : JSONWriterOptions) (level : Z) :
  prettyPrint options = true ->
  _isLeafNode (XMap [(key, XString s)]) = true
  /\ _serializeObject (XMap [(key, XString s)]) options level
     = "{ " ++ dquote ++ key ++ dquote ++ ": " ++ dquote ++ s ++ dquote ++ " }".
Proof.
  intros H. split; [reflexivity|].
  rewrite (serializeObject_entries options _ [(key, XString s)])
    by (left; reflexivity).
  change (_isLeafNode (XMap [(key, XString s)])) with true.
  unfold entrySeparator. cbn [map String.concat].
  unfold entryText, entrySeparator. rewrite H. cbn [andb fst snd].
  cbn [_serializeObject toString]. cbv zeta.
  rewrite ?string_app_assoc. reflexivity.
Qed.

Lemma single_entry_map_on_one_line_witness :
  prettyPrint Samples.prettyOptions = true
  /\ _isLeafNode Samples.singleEntry = true
  /\ _serializeObject Samples.singleEntry Samples.prettyOptions 0
     = "{ " ++ dquote ++ "a" ++ dquote ++ ": "
            ++ dquote ++ "1" ++ dquote ++ " }".
Proof.
  split; [reflexivity|].
  apply (single_entry_map_on_one_line "a" "1" Samples.prettyOptions 0).
  reflexivity.
Defined.

(** C4, the claim as first stated. The map with the entry [a] of value
    [1] is rendered with a space after the colon, which the form
    [{ "a":"1" }] does not have. *)
Lemma single_entry_map_has_space_after_colon :
  _serializeObject Samples.singleEntry Samples.prettyOptions 0
  = "{ " ++ dquote ++ "a" ++ dquote ++ ": " ++ dquote ++ "1" ++ dquote ++ " }"
  /\ _serializeObject Samples.singleEntry Samples.prettyOptions 0
     <> "{ " ++ dquote ++ "a" ++ dquote ++ ":"
             ++ dquote ++ "1" ++ dquote ++ " }".
Proof.
  split; [reflexivity | discriminate].
Qed.




End JSONWriter.

(** * Further properties: token lists *)

Section OrderedSetFacts.

Import Utility.OrderedSet Tokens.
Local Open Scope string_scope.

(** The loop of [parse] keeps the non-empty pieces, in order. *)
Lemma parse_filter (value : string) :
  parse value = filter nonEmpty (splitOn WhiteSpace value).
Proof.
  unfold parse. cbv zeta.
  match goal with
  | |- ?loop _ [] = _ =>
      assert (G : forall arr filtered,
                 loop arr filtered = (filtered ++ filter nonEmpty arr)%list)
  end.
  { induction arr as [|str rest IH]; intros filtered.
    - now rewrite app_nil_r.
    - cbn [filter]. unfold nonEmpty at 1.
      destruct (negb (String.eqb str EmptyString)).
      + rewrite IH, <- app_assoc. reflexivity.
      + apply IH. }
  apply G.
Qed.

Lemma splitOn_not_nil (isSep : ascii -> bool) (s : string) :
  splitOn isSep s <> [].
Proof.
  destruct s as [|c s]; simpl; [discriminate|].
  destruct (isSep c); [discriminate|].
  destruct (splitOn isSep s); discriminate.
Qed.

(** No piece contains white space. *)
Lemma splitOn_pieces (s : string) :
  Forall (fun piece => hasWhiteSpace piece = false) (splitOn WhiteSpace s).
Proof.
  induction s as [|c s IH]; simpl.
  - repeat constructor.
  - destruct (WhiteSpace c) eqn:E.
    + constructor; [reflexivity | exact IH].
    + destruct (splitOn WhiteSpace s) as [|piece pieces].
      * repeat constructor. simpl. now rewrite E.
      * inversion IH; subst. constructor; [|assumption].
        simpl. now rewrite E.
Qed.

(** Splitting goes through a white-space character. *)
Lemma splitOn_app (a b : string) (c : ascii) :
  WhiteSpace c = true ->
  splitOn WhiteSpace (a ++ String c b)
  = (splitOn WhiteSpace a ++ splitOn WhiteSpace b)%list.
Proof.
  intros Hc. induction a as [|x a IH]; simpl.
  - now rewrite Hc.
  - rewrite IH. destruct (WhiteSpace x); [reflexivity|].
    pose proof (splitOn_not_nil WhiteSpace a) as Hne.
    destruct (splitOn WhiteSpace a); [congruence | reflexivity].
Qed.

(** A string without white space is its own only piece. *)
Lemma splitOn_token (s : string) :
  hasWhiteSpace s = false -> splitOn WhiteSpace s = [s].
Proof.
  induction s as [|c s IH]; simpl; [reflexivity|].
  intros H. apply orb_false_iff in H. destruct H as [Hc Hs].
  rewrite Hc, (IH Hs). reflexivity.
Qed.

Lemma parse_app (a b : string) (c : ascii) :
  WhiteSpace c = true ->
  parse (a ++ String c b) = (parse a ++ parse b)%list.
Proof.
  intros Hc. rewrite !parse_filter, (splitOn_app a b c Hc).
  apply filter_app.
Qed.

Lemma parse_token (s : string) : isToken s -> parse s = [s].
Proof.
  intros [Hne Hws]. rewrite parse_filter, (splitOn_token s Hws).
  cbn [filter]. unfold nonEmpty.
  destruct (String.eqb_spec s EmptyString); [contradiction | reflexivity].
Qed.

Lemma parse_tokens (value : string) : Forall isToken (parse value).
Proof.
  rewrite parse_filter.
  pose proof (splitOn_pieces value) as H.
  induction H as [|piece pieces Hp _ IH]; cbn [filter]; [constructor|].
  unfold nonEmpty at 1.
  destruct (String.eqb_spec piece EmptyString); cbn [negb]; [exact IH|].
  constructor; [split; assumption | exact IH].
Qed.

Lemma parse_serialize (tokens : list string) :
  Forall isToken tokens -> parse (serialize tokens) = tokens.
Proof.
  unfold serialize.
  induction 1 as [|t rest Ht Hrest IH]; [reflexivity|].
  destruct rest as [|u rest'].
  - cbn [String.concat]. now apply parse_token.
  - change (String.concat " " (t :: u :: rest'))
      with (t ++ String " " (String.concat " " (u :: rest'))).
    rewrite parse_app by reflexivity.
    rewrite IH, (parse_token t Ht). reflexivity.
Qed.

Lemma parse_blank (value : string) :
  parse value = [] <-> onlyWhiteSpace value = true.
Proof.
  rewrite parse_filter. induction value as [|c s IH]; simpl.
  - split; reflexivity.
  - destruct (WhiteSpace c) eqn:E; cbn [andb].
    + exact IH.
    + pose proof (splitOn_not_nil WhiteSpace s) as Hne.
      destruct (splitOn WhiteSpace s) as [|piece pieces]; [congruence|].
      cbn [filter nonEmpty String.eqb negb]. split; discriminate.
Qed.

Lemma spacesOnly_app (a b : string) :
  spacesOnly (a ++ b) = spacesOnly a && spacesOnly b.
Proof.
  induction a as [|c a IH]; simpl; [reflexivity|].
  now rewrite IH, andb_assoc.
Qed.

Lemma token_spacesOnly (s : string) :
  hasWhiteSpace s = false -> spacesOnly s = true.
Proof.
  induction s as [|c s IH]; simpl; [reflexivity|].
  intros H. apply orb_false_iff in H. destruct H as [Hc Hs].
  now rewrite Hc, (IH Hs).
Qed.

Lemma serialize_spacesOnly (tokens : list string) :
  Forall isToken tokens -> spacesOnly (serialize tokens) = true.
Proof.
  unfold serialize. induction 1 as [|t rest [_ Ht] _ IH]; [reflexivity|].
  destruct rest as [|u rest'].
  - cbn [String.concat]. now apply token_spacesOnly.
  - change (String.concat " " (t :: u :: rest'))
      with (t ++ " " ++ String.concat " " (u :: rest')).
    rewrite !spacesOnly_app, IH, (token_spacesOnly t Ht). reflexivity.
Qed.

(** X1. Every string [parse] returns is a token: it is not empty and
    contains no white space; and the only white space in a sanitized
    string is the space character. *)
Theorem parse_returns_tokens (value : string) :
  Forall (fun token => token <> EmptyString /\ hasWhiteSpace token = false)
    (parse value)
  /\ spacesOnly (sanitize value) = true.
Proof.
  split; [apply parse_tokens|].
  apply serialize_spacesOnly, parse_tokens.
Qed.

(** X2. Parsing the serialization of a list of tokens (non-empty
    strings without white space) gives the list back, in the same order
    and with the same repetitions. *)
Theorem parse_serialize_round_trip (tokens : list string) :
  Forall isToken tokens -> parse (serialize tokens) = tokens.
Proof.
  apply parse_serialize.
Qed.

Lemma parse_serialize_round_trip_witness :
  Forall isToken ["a"; "b"; "a"]
  /\ parse (serialize ["a"; "b"; "a"]) = ["a"; "b"; "a"].
Proof.
  assert (H : Forall isToken ["a"; "b"; "a"])
    by (repeat constructor; discriminate).
  split; [exact H|].
  apply (parse_serialize_round_trip ["a"; "b"; "a"] H).
Defined.

(** X3. [sanitize] is idempotent, and sanitizing a string does not
    change what [parse] reads from it. *)
Theorem sanitize_idempotent (value : string) :
  sanitize (sanitize value) = sanitize value
  /\ parse (sanitize value) = parse value.
Proof.
  assert (H : parse (sanitize value) = parse value)
    by (apply parse_serialize, parse_tokens).
  split; [|exact H].
  unfold sanitize at 1. now rewrite H.
Qed.

(** X4. [parse] reads a string piece by piece: the tokens of two strings
    joined by a white-space character are the tokens of the first
    followed by those of the second. Nothing is dropped on the way, so
    [sanitize] keeps a token that occurs twice: for a token [t],
    sanitizing [t t] gives [t t]. *)
Theorem parse_concatenates (a b : string) (c : ascii) :
  WhiteSpace c = true ->
  parse (a ++ String c b) = (parse a ++ parse b)%list
  /\ (isToken a -> sanitize (a ++ String c a) = a ++ " " ++ a).
Proof.
  intros Hc. split; [now apply parse_app|].
  intros Ha. unfold sanitize.
  rewrite (parse_app a a c Hc), (parse_token a Ha). reflexivity.
Qed.

Lemma parse_concatenates_witness :
  WhiteSpace (ascii_of_nat 9) = true
  /\ parse ("x y" ++ String (ascii_of_nat 9) "z") = ["x"; "y"; "z"].
Proof.
  split; [reflexivity|].
  apply (proj1 (parse_concatenates "x y" "z" (ascii_of_nat 9) eq_refl)).
Defined.

(** X5. [parse] returns the empty list exactly for the strings made of
    white space only (the empty string among them), and these are the
    strings [sanitize] turns into the empty string. *)
Theorem parse_blank_input (value : string) :
  (parse value = [] <-> onlyWhiteSpace value = true)
  /\ (sanitize value = EmptyString <-> onlyWhiteSpace value = true).
Proof.
  split; [apply parse_blank|].
  rewrite <- parse_blank. unfold sanitize, serialize.
  pose proof (parse_tokens value) as H.
  destruct H as [|t rest [Ht _] _]; [split; reflexivity|].
  split; [|discriminate].
  destruct t as [|c t]; [contradiction|].
  destruct rest; discriminate.
Qed.

End OrderedSetFacts.

(** * Further properties: tree order *)

Section TreeOrderFacts.

Import Utility TreeOrder.

(** The descendants of a descendant are descendants. *)
Lemma descendants_incl (a : Node) :
  forall b, In b (descendants a) -> incl (descendants b) (descendants a).
Proof.
  induction a as [id children IH] using Node_children_ind.
  intros b Hb. cbn [descendants childNodes] in *.
  apply in_flat_map in Hb. destruct Hb as [child [Hchild Hb]].
  assert (Hsub : incl (descendants b) (descendants child)).
  { destruct Hb as [<-|Hb]; [apply incl_refl|].
    rewrite Forall_forall in IH. now apply (IH child Hchild). }
  intros y Hy. apply in_flat_map. exists child. split; [assumption|].
  right. now apply Hsub.
Qed.

Lemma isDescendantOf_true_iff (a c : Node) :
  isDescendantOf a c = true
  <-> exists x, In x (descendants a) /\ nodeId x = nodeId c.
Proof.
  rewrite isDescendantOf_descendants, existsb_exists.
  split; intros [x [Hx Hid]]; exists x; (split; [assumption|]).
  - now apply Nat.eqb_eq.
  - now apply Nat.eqb_eq.
Qed.

(** X6. Every child of a node is a descendant of it, and the relation
    goes down the tree: a descendant of a node that stands in the
    subtree of [a] is a descendant of [a]. *)
Theorem isDescendantOf_down_the_tree (a b c : Node) :
  (In b (childNodes a) -> isDescendantOf a b = true)
  /\ (In b (descendants a) -> isDescendantOf b c = true ->
      isDescendantOf a c = true).
Proof.
  split.
  - intros Hb. apply isDescendantOf_true_iff. exists b. split; [|reflexivity].
    destruct a as [id children]. cbn [descendants childNodes] in *.
    apply in_flat_map. exists b. split; [assumption | now left].
  - intros Hb Hc. apply isDescendantOf_true_iff in Hc.
    destruct Hc as [x [Hx Hid]].
    apply isDescendantOf_true_iff. exists x. split; [|assumption].
    now apply (descendants_incl a b Hb).
Qed.

Lemma isDescendantOf_down_the_tree_witness :
  In Samples.a1 (childNodes Samples.docA)
  /\ isDescendantOf Samples.docA Samples.a1 = true.
Proof.
  assert (H : In Samples.a1 (childNodes Samples.docA)) by (left; reflexivity).
  split; [exact H|].
  apply (proj1 (isDescendantOf_down_the_tree
                  Samples.docA Samples.a1 Samples.a1) H).
Defined.

(** X7. In a tree whose nodes have distinct identities, a node is not a
    descendant of itself, and no node of its subtree is an ancestor of
    it. *)
Theorem isDescendantOf_no_cycle (a b : Node) :
  NoDup (map nodeId (a :: descendants a)) ->
  isDescendantOf a a = false
  /\ (In b (descendants a) -> isAncestorOf a b = false).
Proof.
  intros Hnodup. inversion Hnodup as [|? ? Hnotin _]; subst.
  assert (Hno : forall x, In x (descendants a) -> nodeId x <> nodeId a).
  { intros x Hx Heq. apply Hnotin. rewrite <- Heq. now apply in_map. }
  split.
  - destruct (isDescendantOf a a) eqn:E; [|reflexivity].
    apply isDescendantOf_true_iff in E. destruct E as [x [Hx Hid]].
    now destruct (Hno x Hx).
  - intros Hb. unfold isAncestorOf.
    destruct (isDescendantOf b a) eqn:E; [|reflexivity].
    apply isDescendantOf_true_iff in E. destruct E as [x [Hx Hid]].
    destruct (Hno x); [|assumption]. now apply (descendants_incl a b Hb).
Qed.

Lemma isDescendantOf_no_cycle_witness :
  NoDup (map nodeId (Samples.docA :: descendants Samples.docA))
  /\ isDescendantOf Samples.docA Samples.docA = false.
Proof.
  assert (H : NoDup (map nodeId (Samples.docA :: descendants Samples.docA))).
  { cbn. repeat constructor; cbn; intuition discriminate. }
  split; [exact H|].
  apply (proj1 (isDescendantOf_no_cycle Samples.docA Samples.a1 H)).
Defined.

(** X8. [treePosition] never returns 0: the result is [-1], or it lies
    between 1 and the number of descendants of the root. *)
Theorem treePosition_range (root : option Node) (node : Node) :
  treePosition root node = -1
  \/ (1 <= treePosition root node
      /\ forall r, root = Some r ->
           treePosition root node <= Z.of_nat (List.length (descendants r))).
Proof.
  destruct root as [r|]; [|now left].
  rewrite treePosition_value.
  destruct (isDescendantOf r node) eqn:E; [right | now left].
  apply isDescendantOf_true_iff in E. destruct E as [x [Hx _]].
  split.
  - destruct (descendants r); [contradiction | cbn [List.length]; lia].
  - intros r' Hr'. injection Hr' as <-. lia.
Qed.

Lemma isPreceding_true_iff
    (ownerDocument : Node -> option Node) (a b : Node) :
  isPreceding ownerDocument a b = true
  <-> treePosition (ownerDocument a) a <> -1
      /\ treePosition (ownerDocument b) b <> -1
      /\ treePosition (ownerDocument b) b < treePosition (ownerDocument a) a.
Proof.
  unfold isPreceding.
  destruct (Z.eqb_spec (treePosition (ownerDocument a) a) (-1));
  destruct (Z.eqb_spec (treePosition (ownerDocument b) b) (-1));
    cbn [orb]; rewrite ?Z.ltb_lt; intuition congruence.
Qed.

(** X9. Whatever the nodes, [isPreceding] and [isFollowing] are never
    both true, no node precedes or follows itself, and if [b] precedes
    [a] then [a] does not precede [b]. *)
Theorem isPreceding_isFollowing_exclusive
    (ownerDocument : Node -> option Node) (a b : Node) :
  isPreceding ownerDocument a b && isFollowing ownerDocument a b = false
  /\ isPreceding ownerDocument a a = false
  /\ isFollowing ownerDocument a a = false
  /\ isPreceding ownerDocument a b && isPreceding ownerDocument b a = false.
Proof.
  assert (Hirr : isPreceding ownerDocument a a = false).
  { destruct (isPreceding ownerDocument a a) eqn:E; [|reflexivity].
    apply isPreceding_true_iff in E. lia. }
  repeat split.
  - destruct (isPreceding ownerDocument a b) eqn:E; [|reflexivity].
    destruct (isFollowing ownerDocument a b) eqn:F; [|reflexivity].
    rewrite <- isPreceding_isFollowing_swap in F.
    apply isPreceding_true_iff in E. apply isPreceding_true_iff in F. lia.
  - exact Hirr.
  - now rewrite <- isPreceding_isFollowing_swap.
  - destruct (isPreceding ownerDocument a b) eqn:E; [|reflexivity].
    destruct (isPreceding ownerDocument b a) eqn:F; [|reflexivity].
    apply isPreceding_true_iff in E. apply isPreceding_true_iff in F. lia.
Qed.

(** X10. [isPreceding] and [isFollowing] are transitive. *)
Theorem isPreceding_transitive
    (ownerDocument : Node -> option Node) (a b c : Node) :
  (isPreceding ownerDocument a b = true ->
   isPreceding ownerDocument b c = true ->
   isPreceding ownerDocument a c = true)
  /\ (isFollowing ownerDocument a b = true ->
      isFollowing ownerDocument b c = true ->
      isFollowing ownerDocument a c = true).
Proof.
  split.
  - rewrite !isPreceding_true_iff. lia.
  - rewrite <- !isPreceding_isFollowing_swap, !isPreceding_true_iff. lia.
Qed.

Lemma isPreceding_transitive_witness :
  isPreceding Chain.ownerDocument Chain.c1 Chain.c2 = true
  /\ isPreceding Chain.ownerDocument Chain.c2 Chain.c3 = true
  /\ isPreceding Chain.ownerDocument Chain.c1 Chain.c3 = true.
Proof.
  split; [reflexivity|]. split; [reflexivity|].
  apply (proj1 (isPreceding_transitive
                  Chain.ownerDocument Chain.c1 Chain.c2 Chain.c3));
    reflexivity.
Defined.

(** X11. Used as a search, with a callback that returns the node when a
    test holds and a falsy value otherwise, [forEachDescendant] returns
    the first descendant in document order that passes the test, or
    [undefined] when there is none. With a callback that never returns a
    truthy value it folds the callback's effect over all descendants in
    document order and returns [undefined]. *)
Theorem forEachDescendant_search_and_fold (node : Node) :
  (forall (S : Type) (test : Node -> bool) (s : S),
      forEachDescendant node
        (fun n s => (if test n then Some n else None, s)) s
      = (List.find test (descendants node), s))
  /\ (forall (S : Type) (effect : S -> Node -> S) (s : S),
         forEachDescendant node
           (fun n s => (@None unit, effect s n)) s
         = (None, fold_left effect (descendants node) s)).
Proof.
  split; intros; rewrite forEachDescendant_run.
  - induction (descendants node) as [|n l IH]; [reflexivity|].
    cbn [visitUntil List.find]. destruct (test n); [reflexivity | exact IH].
  - revert s. induction (descendants node) as [|n l IH]; intros s;
      [reflexivity|].
    cbn [visitUntil fold_left]. apply IH.
Qed.

End TreeOrderFacts.

(** * Further properties: qualified names *)

Section NameFacts.

Import Utility.
Import DOMImplementation.
Local Open Scope string_scope.

Variable XMLSpec_Name XMLSpec_QName : string -> bool.

(** Joining the pieces of a string with the separator gives the string
    back. *)
Lemma concat_split (s : string) : String.concat ":" (split ":" s) = s.
Proof.
  induction s as [|c s IH]; [reflexivity|]. cbn [split].
  pose proof (split_not_nil ":" s) as Hne.
  destruct (Ascii.eqb_spec c ":") as [->|Hc].
  - destruct (split ":" s) as [|piece pieces]; [congruence|].
    change (String.concat ":" (EmptyString :: piece :: pieces))
      with (":" ++ String.concat ":" (piece :: pieces)).
    now rewrite IH.
  - destruct (split ":" s) as [|piece pieces]; [congruence|].
    destruct pieces as [|piece' pieces'].
    + cbn [String.concat] in *. now rewrite IH.
    + change (String.concat ":" (String c piece :: piece' :: pieces'))
        with (String c (String.concat ":" (piece :: piece' :: pieces'))).
      now rewrite IH.
Qed.

(** No piece contains the separator. *)
Lemma split_pieces (s : string) :
  Forall (fun piece => split ":" piece = [piece]) (split ":" s).
Proof.
  induction s as [|c s IH]; cbn [split].
  - repeat constructor.
  - destruct (Ascii.eqb c ":") eqn:E.
    + constructor; [reflexivity | exact IH].
    + destruct (split ":" s) as [|piece pieces].
      * repeat constructor. cbn [split]. now rewrite E.
      * inversion IH as [|? ? Hpiece Hrest]; subst.
        constructor; [|assumption]. cbn [split]. now rewrite E, Hpiece.
Qed.

(** What a successful call has checked and what it returns. *)
Lemma extractNames_success (namespace : option string)
    (qualifiedName : string) (r : Names) :
  extractNames XMLSpec_Name XMLSpec_QName namespace qualifiedName = inr r ->
  let ns := if negb (truthy namespace) then None else namespace in
  let parts := split ":" qualifiedName in
  let prefix :=
    if Nat.eqb (List.length parts) 2 then nth_error parts 0 else None in
  let localName :=
    if Nat.eqb (List.length parts) 2 then nth 1 parts EmptyString
    else qualifiedName in
  r = mkNames ns prefix localName
  /\ truthy prefix && negb (truthy ns) = false
  /\ strictEq prefix (Some "xml") && negb (strictEq ns (Some Namespace.XML))
     = false
  /\ negb (strictEq ns (Some Namespace.XMLNS))
     && (strictEq prefix (Some "xmlns") || String.eqb qualifiedName "xmlns")
     = false
  /\ strictEq ns (Some Namespace.XMLNS)
     && (negb (strictEq prefix (Some "xmlns"))
         && negb (String.eqb qualifiedName "xmlns"))
     = false.
Proof.
  unfold extractNames.
  destruct (validateQName XMLSpec_Name XMLSpec_QName qualifiedName);
    [discriminate|].
  cbv zeta.
  repeat match goal with
         | |- (if ?c then _ else _) = _ -> _ =>
             destruct c eqn:?; [discriminate|]
         end.
  intros H. injection H as <-. repeat split; assumption.
Qed.

(** X12. What a successful [extractNames] guarantees about its result:
    the namespace is never the empty string; a non-empty prefix comes
    with a non-null namespace; the prefix ["xml"] comes with the XML
    namespace; and the namespace is the XMLNS namespace exactly when the
    prefix is ["xmlns"] or the qualified name is ["xmlns"]. *)
Theorem extractNames_result_is_consistent
    (namespace : option string) (qualifiedName : string) (r : Names) :
  extractNames XMLSpec_Name XMLSpec_QName namespace qualifiedName = inr r ->
  Utility.namespace r <> Some EmptyString
  /\ (forall p, prefix r = Some p -> p <> EmptyString ->
        Utility.namespace r <> None)
  /\ (prefix r = Some "xml" -> Utility.namespace r = Some Namespace.XML)
  /\ (Utility.namespace r = Some Namespace.XMLNS
      <-> prefix r = Some "xmlns" \/ qualifiedName = "xmlns").
Proof.
  intros H. apply extractNames_success in H. cbv zeta in H.
  destruct H as [-> [H1 [H2 [H3 H4]]]]. cbn [Utility.namespace prefix].
  set (ns := if negb (truthy namespace) then None else namespace) in *.
  set (pre := if Nat.eqb (List.length (split ":" qualifiedName)) 2
              then nth_error (split ":" qualifiedName) 0 else None) in *.
  split; [|split; [|split]].
  - subst ns. destruct namespace as [s|]; [|discriminate]. cbn [truthy].
    destruct (String.eqb_spec s EmptyString); cbn [negb];
      [discriminate | congruence].
  - intros p Hp Hne Hns. rewrite Hp, Hns in H1. cbn [truthy negb] in H1.
    destruct (String.eqb_spec p EmptyString); [contradiction | discriminate].
  - intros Hp. rewrite Hp in H2. cbn [strictEq] in H2.
    rewrite String.eqb_refl in H2. cbn [andb] in H2.
    apply negb_false_iff in H2. now apply strictEq_true_iff.
  - destruct (strictEq ns (Some Namespace.XMLNS)) eqn:Ens;
    destruct (strictEq pre (Some "xmlns")) eqn:Epre;
    destruct (String.eqb qualifiedName "xmlns") eqn:Eq;
    cbn [andb orb negb] in H3, H4; try discriminate;
    rewrite ?strictEq_true_iff, ?strictEq_false_iff in *;
    rewrite ?String.eqb_eq, ?String.eqb_neq in *;
    intuition congruence.
Qed.

(** X13. The result of a successful [extractNames] rebuilds the
    qualified name: it is the prefix, a colon and the local name when
    there is a prefix, and the local name otherwise; neither the prefix
    nor, beside a prefix, the local name contains a colon. *)
Theorem extractNames_rebuilds_name
    (namespace : option string) (qualifiedName : string) (r : Names) :
  extractNames XMLSpec_Name XMLSpec_QName namespace qualifiedName = inr r ->
  qualifiedName
  = match prefix r with
    | Some p => p ++ ":" ++ localName r
    | None => localName r
    end
  /\ (forall p, prefix r = Some p ->
        split ":" p = [p] /\ split ":" (localName r) = [localName r]).
Proof.
  intros H. apply extractNames_success in H. cbv zeta in H.
  destruct H as [-> _]. cbn [prefix localName].
  pose proof (concat_split qualifiedName) as Hjoin.
  pose proof (split_pieces qualifiedName) as Hpieces.
  destruct (split ":" qualifiedName) as [|a [|b [|c rest]]];
    cbn [List.length Nat.eqb nth_error nth];
    try (split; [reflexivity | discriminate]).
  split; [now rewrite <- Hjoin|].
  intros p Hp. injection Hp as <-.
  inversion Hpieces as [|? ? Ha Hrest]; subst.
  inversion Hrest; subst. split; assumption.
Qed.

(** X14. [extractNames] treats an empty namespace as null, and its
    result is stable: a successful call, made again with the namespace
    it returned, returns the same result. *)
Theorem extractNames_namespace_normalized
    (namespace : option string) (qualifiedName : string) :
  extractNames XMLSpec_Name XMLSpec_QName (Some EmptyString) qualifiedName
  = extractNames XMLSpec_Name XMLSpec_QName None qualifiedName
  /\ (forall r,
         extractNames XMLSpec_Name XMLSpec_QName namespace qualifiedName
         = inr r ->
         extractNames XMLSpec_Name XMLSpec_QName
           (Utility.namespace r) qualifiedName
         = inr r).
Proof.
  split; [reflexivity|].
  intros r H. pose proof (extractNames_success _ _ _ H) as Hs.
  cbv zeta in Hs. destruct Hs as [Hr _].
  assert (Hns : Utility.namespace r
                = if negb (truthy namespace) then None else namespace)
    by (rewrite Hr; reflexivity).
  rewrite <- H. rewrite Hns.
  destruct namespace as [s|]; [|reflexivity]. cbn [truthy].
  destruct (String.eqb s EmptyString) eqn:E; cbn [negb].
  - apply String.eqb_eq in E. subst s. reflexivity.
  - unfold extractNames. cbn [truthy]. rewrite E. reflexivity.
Qed.

End NameFacts.

Section NameWitnesses.

Import Utility.
Import DOMImplementation.
Local Open Scope string_scope.

Lemma extractNames_result_is_consistent_witness :
  extractNames XMLSpec.Name XMLSpec.QName (Some Namespace.XML) "xml:lang"
  = inr (mkNames (Some Namespace.XML) (Some "xml") "lang")
  /\ Some Namespace.XML <> Some EmptyString.
Proof.
  assert (H : extractNames XMLSpec.Name XMLSpec.QName
                (Some Namespace.XML) "xml:lang"
              = inr (mkNames (Some Namespace.XML) (Some "xml") "lang"))
    by reflexivity.
  split; [exact H|].
  apply (proj1 (extractNames_result_is_consistent _ _ _ _ _ H)).
Defined.

Lemma extractNames_namespace_normalized_witness :
  extractNames XMLSpec.Name XMLSpec.QName (Some Namespace.XML) "xml:lang"
  = inr (mkNames (Some Namespace.XML) (Some "xml") "lang")
  /\ extractNames XMLSpec.Name XMLSpec.QName
       (namespace (mkNames (Some Namespace.XML) (Some "xml") "lang"))
       "xml:lang"
     = inr (mkNames (Some Namespace.XML) (Some "xml") "lang").
Proof.
  assert (H : extractNames XMLSpec.Name XMLSpec.QName
                (Some Namespace.XML) "xml:lang"
              = inr (mkNames (Some Namespace.XML) (Some "xml") "lang"))
    by reflexivity.
  split; [exact H|].
  apply (proj2 (extractNames_namespace_normalized
                  XMLSpec.Name XMLSpec.QName (Some Namespace.XML) "xml:lang")
           _ H).
Defined.

Lemma extractNames_rebuilds_name_witness :
  extractNames XMLSpec.Name XMLSpec.QName (Some Namespace.XML) "xml:lang"
  = inr (mkNames (Some Namespace.XML) (Some "xml") "lang")
  /\ "xml:lang" = "xml" ++ ":" ++ "lang".
Proof.
  assert (H : extractNames XMLSpec.Name XMLSpec.QName
                (Some Namespace.XML) "xml:lang"
              = inr (mkNames (Some Namespace.XML) (Some "xml") "lang"))
    by reflexivity.
  split; [exact H|].
  apply (proj1 (extractNames_rebuilds_name _ _ _ _ _ H)).
Defined.

End NameWitnesses.

(** * Further properties: the descendant count *)

Section CountFacts.

Import JSONWriterImpl JSONSpec.
Local Open Scope Z_scope.

Lemma count_or_zero (c : Z) : (if c =? 0 then 0 else c) = c.
Proof.
  destruct (Z.eqb_spec c 0); congruence.
Qed.

Lemma descendantCount_None (obj : XMLSerializedValue) :
  _descendantCount obj None = _descendantCount obj (Some 0).
Proof.
  destruct obj; reflexivity.
Qed.

Lemma sum_nonneg {A : Type} (f : A -> Z) (l : list A) :
  (forall x, 0 <= f x) -> 0 <= fold_right (fun x acc => f x + acc) 0 l.
Proof.
  intros Hf. induction l as [|x l IH]; cbn [fold_right];
    [lia | specialize (Hf x); lia].
Qed.

Lemma scalarCount_nonneg (obj : XMLSerializedValue) : 0 <= scalarCount obj.
Proof.
  induction obj as [s|entries IH|items IH|entries IH]
    using XMLSerializedValue_children_ind; cbn [scalarCount];
    try lia; induction IH; cbn [fold_right]; lia.
Qed.

(** One step of the counting loops, for the induction on the children:
    [IHrest] is the statement for the remaining children at any count. *)
Ltac count_step c Hx IHrest :=
  match type of Hx with
  | context [scalarCount ?v] => pose proof (scalarCount_nonneg v)
  end;
  match goal with
  | |- context [?loop _ (c + ?d)] => specialize (IHrest (c + d))
  end.

(** Started from a count [c], the function returns at least [c] plus the
    number of scalars of the value. *)
Lemma descendantCount_lower (obj : XMLSerializedValue) :
  forall c, 0 <= c -> c + scalarCount obj <= _descendantCount obj (Some c).
Proof.
  induction obj as [s|entries IH|items IH|entries IH]
    using XMLSerializedValue_children_ind; intros c Hc;
    cbn [_descendantCount scalarCount]; rewrite count_or_zero;
    try lia.
  all: revert c Hc; induction IH as [|x rest Hx _ IHrest]; intros c Hc;
    cbn [fold_right]; [lia|].
  all: try destruct x as [key val]; cbn [snd] in *.
  all: specialize (Hx c Hc); count_step c Hx IHrest; lia.
Qed.

(** Started from zero on a value without scalars, the function returns
    zero. *)
Lemma descendantCount_zero (obj : XMLSerializedValue) :
  scalarCount obj = 0 -> _descendantCount obj (Some 0) = 0.
Proof.
  induction obj as [s|entries IH|items IH|entries IH]
    using XMLSerializedValue_children_ind;
    cbn [_descendantCount scalarCount Z.eqb]; try discriminate.
  - induction IH as [|[key val] rest Hx _ IHrest]; cbn [fold_right];
      [reflexivity|]; intros Hsum. cbn [snd] in *.
    pose proof (scalarCount_nonneg val).
    pose proof (sum_nonneg (fun kv => scalarCount (snd kv)) rest
                  (fun kv => scalarCount_nonneg (snd kv))).
    rewrite Hx by lia. apply IHrest. lia.
  - induction IH as [|val rest Hx _ IHrest]; cbn [fold_right];
      [reflexivity|]; intros Hsum.
    pose proof (scalarCount_nonneg val).
    pose proof (sum_nonneg scalarCount rest scalarCount_nonneg).
    rewrite Hx by lia. apply IHrest. lia.
  - induction IH as [|[key val] rest Hx _ IHrest]; cbn [fold_right];
      [reflexivity|]; intros Hsum. cbn [snd] in *.
    pose proof (scalarCount_nonneg val).
    pose proof (sum_nonneg (fun kv => scalarCount (snd kv)) rest
                  (fun kv => scalarCount_nonneg (snd kv))).
    rewrite Hx by lia. apply IHrest. lia.
Qed.

(** X15. The count [_descendantCount] returns is never below the number
    of scalars in the value, and it is zero exactly when the value holds
    no scalar; hence whatever [_isLeafNode] accepts holds at most one
    scalar. *)
Theorem descendantCount_bounds (obj : XMLSerializedValue) :
  scalarCount obj <= _descendantCount obj None
  /\ (_descendantCount obj None = 0 <-> scalarCount obj = 0)
  /\ (_isLeafNode obj = true -> scalarCount obj <= 1).
Proof.
  unfold _isLeafNode. rewrite descendantCount_None.
  pose proof (descendantCount_lower obj 0 ltac:(lia)) as Hlow.
  pose proof (scalarCount_nonneg obj) as Hpos.
  split; [lia|]. split.
  - split; [lia | apply descendantCount_zero].
  - intros H. apply Z.leb_le in H. lia.
Qed.

Lemma descendantCount_bounds_witness :
  _isLeafNode Samples.singleEntry = true
  /\ scalarCount Samples.singleEntry <= 1.
Proof.
  split; [reflexivity|].
  apply (proj2 (proj2 (descendantCount_bounds Samples.singleEntry))).
  reflexivity.
Defined.

Lemma pow2_leaf (n : nat) :
  (2 ^ Z.of_nat n - 1 <=? 1) = (n <=? 1)%nat.
Proof.
  destruct n as [|[|n]]; [reflexivity | reflexivity |].
  cbn [Nat.leb]. apply Z.leb_gt.
  rewrite !Nat2Z.inj_succ, !Z.pow_succ_r by lia.
  pose proof (Z.pow_pos_nonneg 2 (Z.of_nat n)). lia.
Qed.

(** In the integer model, an array of [n] strings counts [2^n - 1]. *)
Lemma descendantCount_strings (strings : list string) :
  _descendantCount (XArray (map XString strings)) None
  = 2 ^ Z.of_nat (List.length strings) - 1.
Proof.
  cbn [_descendantCount].
  match goal with
  | |- ?loop _ 0 = _ =>
      assert (G : forall l c, 0 <= c ->
                 loop (map XString l) c
                 = (c + 1) * 2 ^ Z.of_nat (List.length l) - 1)
  end.
  { induction l as [|s l IH]; intros c Hc.
    - cbn [map List.length Z.of_nat Z.pow]. lia.
    - cbn [map List.length]. cbn [_descendantCount].
      rewrite count_or_zero, IH by lia.
      rewrite Nat2Z.inj_succ, Z.pow_succ_r by lia. ring. }
  rewrite G by lia. ring.
Qed.

(** In the integer model, a map of [n] string-valued entries counts
    [2^n - 1]. *)
Lemma descendantCount_string_entries (pairs : list (string * string)) :
  _descendantCount
    (XMap (map (fun kv => (fst kv, XString (snd kv))) pairs)) None
  = 2 ^ Z.of_nat (List.length pairs) - 1.
Proof.
  cbn [_descendantCount].
  match goal with
  | |- ?loop _ 0 = _ =>
      assert (G : forall l c, 0 <= c ->
                 loop (map (fun kv : string * string =>
                              (fst kv, XString (snd kv))) l) c
                 = (c + 1) * 2 ^ Z.of_nat (List.length l) - 1)
  end.
  { induction l as [|kv l IH]; intros c Hc.
    - cbn [map List.length Z.of_nat Z.pow]. lia.
    - cbn [map List.length]. cbn [_descendantCount].
      rewrite count_or_zero, IH by lia.
      rewrite Nat2Z.inj_succ, Z.pow_succ_r by lia. ring. }
  rewrite G by lia. ring.
Qed.

Lemma pow2_exact (n : nat) : (n <= 53)%nat -> 2 ^ Z.of_nat n - 1 < 2 ^ 53.
Proof.
  intros H.
  assert (2 ^ Z.of_nat n <= 2 ^ 53) by (apply Z.pow_le_mono_r; lia).
  lia.
Qed.

(** X16. For an array of [n] strings, and for a map of [n] string-valued
    entries, with [n] at most 53, [_descendantCount] returns [2^n - 1]:
    every element doubles the running count and adds one, and all the
    counts on the way stay below [2^53], where the numbers of the code
    are exact. For every [n], such a value is a leaf node exactly when
    it has at most one element. *)
Theorem descendantCount_flat (strings : list string)
    (pairs : list (string * string)) :
  let array := XArray (map XString strings) in
  let entries := XMap (map (fun kv => (fst kv, XString (snd kv))) pairs) in
  ((List.length strings <= 53)%nat ->
   _descendantCount array None = 2 ^ Z.of_nat (List.length strings) - 1
   /\ _descendantCount array None < 2 ^ 53)
  /\ _isLeafNode array = (List.length strings <=? 1)%nat
  /\ ((List.length pairs <= 53)%nat ->
      _descendantCount entries None = 2 ^ Z.of_nat (List.length pairs) - 1
      /\ _descendantCount entries None < 2 ^ 53)
  /\ _isLeafNode entries = (List.length pairs <=? 1)%nat.
Proof.
  cbv zeta. unfold _isLeafNode.
  rewrite descendantCount_strings, descendantCount_string_entries, !pow2_leaf.
  repeat split; try reflexivity; now apply pow2_exact.
Qed.

Lemma descendantCount_flat_witness :
  (List.length ["a"; "b"; "c"] <= 53)%nat
  /\ _descendantCount (XArray (map XString ["a"; "b"; "c"])) None = 7
  /\ _descendantCount (XArray (map XString ["a"; "b"; "c"])) None < 2 ^ 53.
Proof.
  assert (H : (List.length ["a"; "b"; "c"] <= 53)%nat) by (cbn; lia).
  split; [exact H|].
  apply (proj1 (descendantCount_flat ["a"; "b"; "c"] []) H).
Defined.

End CountFacts.

(** * Further properties: rendering *)

Section RenderingFacts.

Import JSONWriterImpl JSONSpec.
Local Open Scope string_scope.
Local Open Scope Z_scope.

Lemma beginLine_withOffset (options : JSONWriterOptions) (k level : Z) :
  _beginLine (withOffset options (offset options + k)) level
  = _beginLine options (level + k).
Proof.
  unfold _beginLine, withOffset. cbn [prettyPrint offset indent].
  now replace (offset options + k + level + 1)
    with (offset options + (level + k) + 1) by lia.
Qed.

Lemma serializeObject_withOffset
    (obj : XMLSerializedValue) (options : JSONWriterOptions) (k : Z) :
  forall level,
    _serializeObject obj (withOffset options (offset options + k)) level
    = _serializeObject obj options (level + k).
Proof.
  pose (shifted := withOffset options (offset options + k)).
  change (forall level,
             _serializeObject obj shifted level
             = _serializeObject obj options (level + k)).
  assert (Hend : forall level level',
             _endLine shifted level = _endLine options level')
    by reflexivity.
  assert (Hsep : forall isLeaf level,
             entrySeparator shifted isLeaf level
             = entrySeparator options isLeaf (level + k)).
  { intros. unfold entrySeparator.
    rewrite (Hend level (level + k)). unfold shifted.
    now rewrite beginLine_withOffset. }
  assert (Hentry : forall isLeaf level kv,
             (forall l, _serializeObject (snd kv) shifted l
                        = _serializeObject (snd kv) options (l + k)) ->
             entryText shifted isLeaf level kv
             = entryText options isLeaf (level + k) kv).
  { intros isLeaf level kv Hval. unfold entryText.
    rewrite Hsep, Hval.
    now replace (level + k + 1) with (level + 1 + k) by lia. }
  induction obj as [s|entries IH|items IH|entries IH]
    using XMLSerializedValue_children_ind; intros level.
  - reflexivity.
  - rewrite !(serializeObject_entries _ (XMap entries) entries)
      by (left; reflexivity).
    rewrite Hsep. do 3 f_equal.
    apply map_ext_Forall. eapply Forall_impl; [|exact IH].
    intros kv Hval. now apply Hentry.
  - rewrite !serializeObject_array.
    rewrite (Hend level (level + k)). unfold shifted at 2.
    rewrite beginLine_withOffset. do 3 f_equal.
    apply map_ext_Forall. eapply Forall_impl; [|exact IH].
    intros val Hval. unfold itemText.
    rewrite (Hend (level + 1) (level + k + 1)), Hval. unfold shifted.
    rewrite beginLine_withOffset.
    now replace (level + k + 1) with (level + 1 + k) by lia.
  - rewrite !(serializeObject_entries _ (XObject entries) entries)
      by (right; reflexivity).
    rewrite Hsep. do 3 f_equal.
    apply map_ext_Forall. eapply Forall_impl; [|exact IH].
    intros kv Hval. now apply Hentry.
Qed.

(** X18. The offset only ever enters the rendering added to the level:
    rendering at [level] with the offset raised by [k] gives the text of
    rendering at [level + k] with the original offset. So [serialize]
    with offset [k] produces what the renderer produces [k] levels deep
    with offset 0. *)
Theorem offset_shifts_level
    (obj : XMLSerializedValue) (options : JSONWriterOptions) (k level : Z) :
  _serializeObject obj (withOffset options (offset options + k)) level
  = _serializeObject obj options (level + k)
  /\ serialize obj (withOffset options k)
     = _beginLine (withOffset options 0) k
       ++ _serializeObject obj (withOffset options 0) k.
Proof.
  split; [apply serializeObject_withOffset|].
  unfold serialize.
  assert (H : _serializeObject obj (withOffset options k) 0
              = _serializeObject obj (withOffset options 0) k)
    by exact (serializeObject_withOffset obj (withOffset options 0) k 0).
  assert (B : _beginLine (withOffset options k) 0
              = _beginLine (withOffset options 0) k)
    by exact (beginLine_withOffset (withOffset options 0) k 0).
  now rewrite H, B.
Qed.



(** X20. With [prettyPrint] off the renderer produces the compact JSON
    text of the value: strings between quotes, items and entries joined
    by commas, keys quoted and followed by a colon, and no white space
    added anywhere. *)
Theorem serializeObject_compact_text
    (obj : XMLSerializedValue) (options : JSONWriterOptions) (level : Z) :
  prettyPrint options = false ->
  _serializeObject obj options level = compactText obj
  /\ serialize obj options = compactText obj.
Proof.
  intros H.
  assert (Hbegin : forall l, _beginLine options l = EmptyString)
    by (intros; unfold _beginLine; now rewrite H).
  assert (Hend : forall l, _endLine options l = EmptyString)
    by (intros; unfold _endLine; now rewrite H).
  assert (Hsep : forall isLeaf l,
             entrySeparator options isLeaf l = EmptyString).
  { intros. unfold entrySeparator.
    now rewrite H, andb_false_r, Hbegin, Hend. }
  assert (G : forall l, _serializeObject obj options l = compactText obj).
  { induction obj as [s|entries IH|items IH|entries IH]
      using XMLSerializedValue_children_ind; intros l.
    - reflexivity.
    - rewrite (serializeObject_entries options _ entries l
                 (or_introl eq_refl)).
      rewrite Hsep. cbn [compactText]. do 3 f_equal.
      apply map_ext_Forall. eapply Forall_impl; [|exact IH].
      intros kv Hkv. unfold entryText. now rewrite Hsep, H, Hkv.
    - rewrite serializeObject_array, Hbegin, Hend. cbn [compactText].
      do 3 f_equal.
      apply map_ext_Forall. eapply Forall_impl; [|exact IH].
      intros val Hval. unfold itemText. now rewrite Hbegin, Hend, Hval.
    - rewrite (serializeObject_entries options _ entries l
                 (or_intror eq_refl)).
      rewrite Hsep. cbn [compactText]. do 3 f_equal.
      apply map_ext_Forall. eapply Forall_impl; [|exact IH].
      intros kv Hkv. unfold entryText. now rewrite Hsep, H, Hkv. }
  split; [apply G|].
  unfold serialize. now rewrite Hbegin, G.
Qed.

Lemma serializeObject_compact_text_witness :
  prettyPrint Samples.compactOptions = false
  /\ _serializeObject Samples.twoStrings Samples.compactOptions 0
     = compactText Samples.twoStrings.
Proof.
  split; [reflexivity|].
  apply (proj1 (serializeObject_compact_text
                  Samples.twoStrings Samples.compactOptions 0 eq_refl)).
Defined.


End RenderingFacts.

(** * The renderer and its exceptions *)

Section RuntimeFacts.

Import JSONSpec.
Local Open Scope string_scope.
Local Open Scope Z_scope.

(** Within the largest array length, [_beginLine] returns the
    indentation. *)
Lemma beginLine_returns (options : JSONWriterOptions) (level : Z) :
  prettyPrint options = false
  \/ offset options + level + 1 <= Runtime.maxArrayLength ->
  Runtime._beginLine options level
  = inr (JSONWriterImpl._beginLine options level).
Proof.
  intros H. unfold Runtime._beginLine, JSONWriterImpl._beginLine.
  destruct (prettyPrint options); cbn [negb]; [|reflexivity].
  destruct H as [H|H]; [discriminate|]. cbv zeta.
  destruct (offset options + level + 1 >? 0); [|reflexivity].
  unfold Runtime.Array_join.
  replace (offset options + level + 1 >? Runtime.maxArrayLength) with false;
    [reflexivity|].
  symmetry. rewrite Z.gtb_ltb. now apply Z.ltb_ge.
Qed.

(** [_beginLine] throws exactly when pretty-printing asks for an array
    longer than the largest array length. *)
Lemma beginLine_throws_iff (options : JSONWriterOptions) (level : Z) :
  Runtime._beginLine options level = inl Runtime.RangeError
  <-> prettyPrint options = true
      /\ Runtime.maxArrayLength < offset options + level + 1.
Proof.
  unfold Runtime._beginLine, Runtime.Array_join.
  destruct (prettyPrint options); cbn [negb]; cbv zeta.
  - destruct (offset options + level + 1 >? 0) eqn:Epos.
    + destruct (offset options + level + 1 >? Runtime.maxArrayLength) eqn:E;
        rewrite Z.gtb_ltb in E.
      * apply Z.ltb_lt in E. split; [split; [reflexivity | exact E]|].
        reflexivity.
      * apply Z.ltb_ge in E. split; [discriminate|]. intros [_ H]. lia.
    + rewrite Z.gtb_ltb in Epos. apply Z.ltb_ge in Epos.
      split; [discriminate|]. intros [_ H].
      unfold Runtime.maxArrayLength in H. lia.
  - split; [discriminate|]. intros [H _]. discriminate.
Qed.

(** The count of a run-time value is that of the value with its
    primitives coerced. *)
Lemma descendantCount_toSerialized (obj : Runtime.JSValue) :
  forall count,
    JSONWriterImpl._descendantCount (Runtime.toSerialized obj) count
    = Runtime._descendantCount obj count.
Proof.
  induction obj as [p|entries IH|items IH]
    using Runtime.JSValue_children_ind; intros count;
    cbn [Runtime.toSerialized JSONWriterImpl._descendantCount
         Runtime._descendantCount]; [reflexivity| |].
  all: generalize (match count with
                   | Some c => if c =? 0 then 0 else c
                   | None => 0
                   end) as c.
  all: induction IH as [|x rest Hx _ IHrest]; intros c; [reflexivity|].
  all: try destruct x as [key val]; cbn [map fst snd] in *.
  all: rewrite Hx; apply IHrest.
Qed.

(** So is the leaf test. *)
Lemma isLeafNode_toSerialized (obj : Runtime.JSValue) :
  JSONWriterImpl._isLeafNode (Runtime.toSerialized obj)
  = Runtime._isLeafNode obj.
Proof.
  unfold JSONWriterImpl._isLeafNode, Runtime._isLeafNode.
  now rewrite descendantCount_toSerialized.
Qed.

(** Heights are not negative. *)
Lemma height_nonneg (obj : Runtime.JSValue) : 0 <= Runtime.height obj.
Proof.
  destruct obj as [p|entries|items]; cbn [Runtime.height]; [lia| |].
  - enough (0 <= fold_right
                   (fun kv acc => Z.max (Runtime.height (snd kv)) acc)
                   0 entries) by lia.
    induction entries as [|kv rest IH]; cbn [fold_right]; lia.
  - enough (0 <= fold_right
                   (fun val acc => Z.max (Runtime.height val) acc)
                   0 items) by lia.
    induction items as [|val rest IH]; cbn [fold_right]; lia.
Qed.

(** A container is at least one high. *)
Lemma height_container (obj : Runtime.JSValue) :
  Runtime.isObject obj = true -> 1 <= Runtime.height obj.
Proof.
  destruct obj as [p|entries|items]; cbn [Runtime.isObject Runtime.height];
    [discriminate| |]; intros _.
  - enough (0 <= fold_right
                   (fun kv acc => Z.max (Runtime.height (snd kv)) acc)
                   0 entries) by lia.
    induction entries as [|kv rest IH]; cbn [fold_right]; lia.
  - enough (0 <= fold_right
                   (fun val acc => Z.max (Runtime.height val) acc)
                   0 items) by lia.
    induction items as [|val rest IH]; cbn [fold_right]; lia.
Qed.

(** An item lies less high than its array. *)
Lemma height_item (items : list Runtime.JSValue) (val : Runtime.JSValue) :
  In val items ->
  Runtime.height val + 1 <= Runtime.height (Runtime.JArray items).
Proof.
  cbn [Runtime.height].
  induction items as [|x rest IH]; intros H; [destruct H|].
  cbn [fold_right]. destruct H as [->|H]; [lia|]. specialize (IH H). lia.
Qed.

(** The value of an entry lies less high than its map. *)
Lemma height_entry (entries : list (string * Runtime.JSValue))
    (kv : string * Runtime.JSValue) :
  In kv entries ->
  Runtime.height (snd kv) + 1 <= Runtime.height (Runtime.JMap entries).
Proof.
  cbn [Runtime.height].
  induction entries as [|x rest IH]; intros H; [destruct H|].
  cbn [fold_right]. destruct H as [->|H]; [lia|]. specialize (IH H). lia.
Qed.

Section LoopFacts.

Variable options : JSONWriterOptions.
Variable level : Z.
Variable serializeChild : Runtime.JSValue -> Runtime.Completion string.
Variable text : Runtime.JSValue -> string.
Variable len : Z.

(** The loop of the array branch returns when the indentation of its
    lines and every recursive call return: it appends the lines of the
    items joined by commas. *)
Lemma serializeItems_returns (b : string) (l : list Runtime.JSValue) :
  Runtime._beginLine options (level + 1) = inr b ->
  Forall (fun val => serializeChild val = inr (text val)) l ->
  forall i markup,
    i + Z.of_nat (List.length l) = len ->
    Runtime.serializeItems options level serializeChild len l i markup
    = inr (markup
           ++ String.concat ","
                (map (fun val =>
                        Runtime._endLine options (level + 1) ++ b ++ text val)
                   l)).
Proof.
  intros Hb Hl.
  induction Hl as [|val rest Hval Hrest IH]; intros i markup Hlen.
  - cbn. now rewrite string_app_nil_r.
  - cbn [Runtime.serializeItems]. rewrite Hb, Hval.
    cbn [Runtime.bind]. cbv zeta.
    rewrite IH by (cbn [List.length] in Hlen; lia).
    f_equal. destruct rest as [|val' rest'].
    + replace (i <? len - 1) with false
        by (symmetry; apply Z.ltb_ge; cbn [List.length] in Hlen; lia).
      cbn [map String.concat]. now rewrite string_app_nil_r.
    + replace (i <? len - 1) with true
        by (symmetry; apply Z.ltb_lt; cbn [List.length] in Hlen; lia).
      cbn [map]. rewrite concat_cons. now rewrite !string_app_assoc.
Qed.

(** The loop of the map branch returns when every recursive call
    returns and, unless a single space stands for it, the indentation of
    its lines does. *)
Lemma serializeEntries_returns (isLeaf : bool) (b : string)
    (l : list (string * Runtime.JSValue)) :
  (isLeaf && prettyPrint options = false ->
   Runtime._beginLine options (level + 1) = inr b) ->
  Forall (fun kv => serializeChild (snd kv) = inr (text (snd kv))) l ->
  forall i markup,
    i + Z.of_nat (List.length l) = len ->
    Runtime.serializeEntries options level serializeChild isLeaf len l i markup
    = inr (markup
           ++ String.concat ","
                (map (fun kv =>
                        (if isLeaf && prettyPrint options then " "
                         else Runtime._endLine options (level + 1) ++ b)
                        ++ dquote ++ fst kv ++ dquote ++ ":"
                        ++ (if prettyPrint options then " " else EmptyString)
                        ++ text (snd kv))
                   l)).
Proof.
  intros Hb Hl.
  induction Hl as [|[key val] rest Hval Hrest IH]; intros i markup Hlen.
  - cbn. now rewrite string_app_nil_r.
  - cbn [Runtime.serializeEntries]. cbn [snd fst] in *.
    assert (Hsep :
      (if isLeaf && prettyPrint options
       then Runtime.ret (markup ++ " ")
       else Runtime.bind (Runtime._beginLine options (level + 1))
              (fun beginLine =>
                 Runtime.ret
                   (markup
                    ++ (Runtime._endLine options (level + 1) ++ beginLine))))
      = inr (markup
             ++ (if isLeaf && prettyPrint options then " "
                 else Runtime._endLine options (level + 1) ++ b))).
    { destruct (isLeaf && prettyPrint options); [reflexivity|].
      now rewrite Hb. }
    cbv zeta. rewrite Hsep. cbn [Runtime.bind]. rewrite Hval.
    cbn [Runtime.bind].
    rewrite IH by (cbn [List.length] in Hlen; lia).
    f_equal. destruct rest as [|kv' rest'].
    + replace (i <? len - 1) with false
        by (symmetry; apply Z.ltb_ge; cbn [List.length] in Hlen; lia).
      cbn [map String.concat fst snd]. rewrite string_app_nil_r.
      destruct (prettyPrint options); now rewrite !string_app_assoc.
    + replace (i <? len - 1) with true
        by (symmetry; apply Z.ltb_lt; cbn [List.length] in Hlen; lia).
      cbn [map]. rewrite concat_cons. cbn [fst snd].
      destruct (prettyPrint options); now rewrite !string_app_assoc.
Qed.

End LoopFacts.

(** Within range, the line of the value itself can be indented. *)
Lemma indentInRange_here options level obj :
  Runtime.indentInRange options level obj ->
  prettyPrint options = false
  \/ offset options + level + 1 <= Runtime.maxArrayLength.
Proof.
  intros [H|H]; [now left|right]. pose proof (height_nonneg obj). lia.
Qed.

(** Within range, so are the items of an array, one level down. *)
Lemma indentInRange_item options level items val :
  Runtime.indentInRange options level (Runtime.JArray items) ->
  In val items ->
  Runtime.indentInRange options (level + 1) val.
Proof.
  intros [H|H] Hin; [now left|right].
  pose proof (height_item items val Hin). lia.
Qed.

(** Within range, so are the values of a map, one level down. *)
Lemma indentInRange_entry options level entries kv :
  Runtime.indentInRange options level (Runtime.JMap entries) ->
  In kv entries ->
  Runtime.indentInRange options (level + 1) (snd kv).
Proof.
  intros [H|H] Hin; [now left|right].
  pose proof (height_entry entries kv Hin). lia.
Qed.

(** Within range, the lines below a container can be indented. *)
Lemma indentInRange_below options level obj :
  Runtime.isObject obj = true ->
  Runtime.indentInRange options level obj ->
  prettyPrint options = false
  \/ offset options + (level + 1) + 1 <= Runtime.maxArrayLength.
Proof.
  intros Hobj [H|H]; [now left|right].
  pose proof (height_container obj Hobj). lia.
Qed.

(** Within range the renderer returns, and what it returns is the text
    of the value with its primitives coerced. *)
Lemma serializeObject_agrees (obj : Runtime.JSValue) :
  forall options level,
    Runtime.indentInRange options level obj ->
    Runtime._serializeObject obj options level
    = inr (JSONWriterImpl._serializeObject (Runtime.toSerialized obj)
             options level).
Proof.
  induction obj as [p|entries IH|items IH]
    using Runtime.JSValue_children_ind; intros options level Hrange.
  - reflexivity.
  - pose proof (isLeafNode_toSerialized (Runtime.JMap entries)) as Hleaf.
    cbn [Runtime.toSerialized] in *.
    rewrite (serializeObject_entries options _ _ level (or_introl eq_refl)).
    rewrite Hleaf.
    cbn [Runtime._serializeObject]. cbv zeta.
    rewrite (serializeEntries_returns options level _
               (fun val => JSONWriterImpl._serializeObject
                             (Runtime.toSerialized val) options (level + 1))
               (Z.of_nat (List.length entries))
               (Runtime._isLeafNode (Runtime.JMap entries))
               (JSONWriterImpl._beginLine options (level + 1))).
    + cbn [Runtime.bind].
      rewrite map_map. cbn [fst snd].
      unfold entryText, entrySeparator. cbn [fst snd].
      destruct (Runtime._isLeafNode (Runtime.JMap entries)
                && prettyPrint options) eqn:E.
      * cbn [Runtime.bind Runtime.ret]. now rewrite !string_app_assoc.
      * rewrite (beginLine_returns options level)
          by (apply (indentInRange_here _ _ _ Hrange)).
        cbn [Runtime.bind Runtime.ret]. now rewrite !string_app_assoc.
    + intros _. apply beginLine_returns.
      now apply (indentInRange_below options level (Runtime.JMap entries)).
    + apply Forall_forall. intros kv Hin.
      rewrite Forall_forall in IH. apply (IH kv Hin).
      apply (indentInRange_entry _ _ _ _ Hrange Hin).
    + lia.
  - cbn [Runtime.toSerialized].
    rewrite (serializeObject_array options _ level).
    cbn [Runtime._serializeObject]. cbv zeta.
    rewrite (serializeItems_returns options level _
               (fun val => JSONWriterImpl._serializeObject
                             (Runtime.toSerialized val) options (level + 1))
               (Z.of_nat (List.length items))
               (JSONWriterImpl._beginLine options (level + 1))).
    + cbn [Runtime.bind].
      rewrite (beginLine_returns options level)
        by (apply (indentInRange_here _ _ _ Hrange)).
      cbn [Runtime.bind Runtime.ret].
      rewrite map_map. unfold itemText. now rewrite !string_app_assoc.
    + apply beginLine_returns.
      now apply (indentInRange_below options level (Runtime.JArray items)).
    + apply Forall_forall. intros val Hin.
      rewrite Forall_forall in IH. apply (IH val Hin).
      apply (indentInRange_item _ _ _ _ Hrange Hin).
    + lia.
Qed.

(** [serialize] returns under the same condition. *)
Lemma serialize_agrees (obj : Runtime.JSValue) (options : JSONWriterOptions) :
  Runtime.indentInRange options 0 obj ->
  Runtime.serialize obj options
  = inr (JSONWriterImpl.serialize (Runtime.toSerialized obj) options).
Proof.
  intros Hrange. unfold Runtime.serialize, JSONWriterImpl.serialize.
  rewrite (beginLine_returns options 0)
    by (apply (indentInRange_here _ _ _ Hrange)).
  cbn [Runtime.bind]. now rewrite (serializeObject_agrees obj options 0).
Qed.

(** What is neither array nor map nor object is a primitive. *)
Lemma scalar_branch (obj : Runtime.JSValue) :
  Runtime.isArray obj = false ->
  Runtime.isMap obj || Runtime.isObject obj = false ->
  exists p, obj = Runtime.JPrimitive p.
Proof.
  destruct obj as [p|entries|items]; intros Harray Hobject;
    [now exists p | discriminate | discriminate].
Qed.

(** With an indentation out of range on its own line, an array
    raises, whatever its items. *)
Lemma serializeObject_array_throws (items : list Runtime.JSValue)
    (options : JSONWriterOptions) (level : Z) :
  prettyPrint options = true ->
  Runtime.maxArrayLength < offset options + level + 1 ->
  Runtime._serializeObject (Runtime.JArray items) options level
  = inl Runtime.RangeError.
Proof.
  intros Hpretty Hlevel.
  assert (Hhere : Runtime._beginLine options level = inl Runtime.RangeError)
    by (apply beginLine_throws_iff; now split).
  assert (Hbelow : Runtime._beginLine options (level + 1)
                   = inl Runtime.RangeError)
    by (apply beginLine_throws_iff; split; [assumption | lia]).
  cbn [Runtime._serializeObject]. cbv zeta.
  destruct items as [|val rest]; cbn [Runtime.serializeItems].
  - cbn [Runtime.ret Runtime.bind]. now rewrite Hhere.
  - now rewrite Hbelow.
Qed.

(** With an indentation out of range on the first line, [serialize]
    raises, whatever the value. *)
Lemma serialize_throws (obj : Runtime.JSValue) (options : JSONWriterOptions) :
  prettyPrint options = true ->
  Runtime.maxArrayLength < offset options + 1 ->
  Runtime.serialize obj options = inl Runtime.RangeError.
Proof.
  intros Hpretty Hoffset. unfold Runtime.serialize.
  assert (Hhere : Runtime._beginLine options 0 = inl Runtime.RangeError)
    by (apply beginLine_throws_iff; split; [assumption | lia]).
  now rewrite Hhere.
Qed.

(** C9 (as amended). The renderer has no error handling of its own; on
    values made of primitives, arrays and maps it behaves as follows.
    - A value that is neither array nor map nor object is a primitive
      (a string, [undefined], a boolean); it takes the scalar branch and
      is rendered as its string coercion between double quotes, whatever
      the options.
    - A value whose indentation stays within the largest array length on
      every line (pretty-printing off, or
      [offset + level + height + 1 <= 2^32 - 1], the height being the
      number of containers nested in the value) is rendered, by
      [_serializeObject] and by [serialize], as the text of the value
      with its primitives coerced.
    - [_beginLine] raises a [RangeError] exactly when pretty-printing
      is on and [offset + level + 1] is above [2^32 - 1]; with such
      options an array raises at that level whatever its items, and
      [serialize] raises for every value once [offset + 1] is above. *)
Theorem serializeObject_returns_within_array_length :
  (forall (obj : Runtime.JSValue) (options : JSONWriterOptions) (level : Z),
      Runtime.isArray obj = false ->
      Runtime.isMap obj || Runtime.isObject obj = false ->
      exists p,
        obj = Runtime.JPrimitive p
        /\ Runtime._serializeObject obj options level
           = inr (dquote ++ Runtime.ToString p ++ dquote))
  /\ (forall (obj : Runtime.JSValue) (options : JSONWriterOptions)
             (level : Z),
         prettyPrint options = false
         \/ offset options + level + Runtime.height obj + 1 <= 2 ^ 32 - 1 ->
         Runtime._serializeObject obj options level
         = inr (JSONWriterImpl._serializeObject (Runtime.toSerialized obj)
                  options level))
  /\ (forall (obj : Runtime.JSValue) (options : JSONWriterOptions),
         prettyPrint options = false
         \/ offset options + Runtime.height obj + 1 <= 2 ^ 32 - 1 ->
         Runtime.serialize obj options
         = inr (JSONWriterImpl.serialize (Runtime.toSerialized obj) options))
  /\ (forall (options : JSONWriterOptions) (level : Z),
         Runtime._beginLine options level = inl Runtime.RangeError
         <-> prettyPrint options = true
             /\ 2 ^ 32 - 1 < offset options + level + 1)
  /\ (forall (items : list Runtime.JSValue) (options : JSONWriterOptions)
             (level : Z),
         prettyPrint options = true ->
         2 ^ 32 - 1 < offset options + level + 1 ->
         Runtime._serializeObject (Runtime.JArray items) options level
         = inl Runtime.RangeError)
  /\ (forall (obj : Runtime.JSValue) (options : JSONWriterOptions),
         prettyPrint options = true ->
         2 ^ 32 - 1 < offset options + 1 ->
         Runtime.serialize obj options = inl Runtime.RangeError).
Proof.
  change (2 ^ 32 - 1) with Runtime.maxArrayLength.
  split; [|split; [|split; [|split; [|split]]]].
  - intros obj options level Harray Hobject.
    destruct (scalar_branch obj Harray Hobject) as [p ->].
    exists p. split; reflexivity.
  - intros obj. apply serializeObject_agrees.
  - intros obj options Hrange. apply serialize_agrees.
    destruct Hrange as [H|H]; [now left|right]. lia.
  - apply beginLine_throws_iff.
  - apply serializeObject_array_throws.
  - apply serialize_throws.
Qed.

(** The array of a hole, a boolean and a one-entry map, pretty-printed
    with offset 0, is within range and rendered, the hole as the quoted
    word [undefined] and the boolean as the quoted word [true]. *)
Lemma serializeObject_returns_within_array_length_witness :
  (prettyPrint Samples.prettyOptions = false
   \/ offset Samples.prettyOptions + 0 + Runtime.height Samples.mixedArray + 1
      <= 2 ^ 32 - 1)
  /\ Runtime._serializeObject Samples.mixedArray Samples.prettyOptions 0
     = inr (JSONWriterImpl._serializeObject
              (Runtime.toSerialized Samples.mixedArray)
              Samples.prettyOptions 0)
  /\ JSONWriterImpl._serializeObject
       (Runtime.toSerialized Samples.mixedArray) Samples.prettyOptions 0
     = "[" ++ Samples.lineFeed
       ++ "  " ++ dquote ++ "undefined" ++ dquote ++ "," ++ Samples.lineFeed
       ++ "  " ++ dquote ++ "true" ++ dquote ++ "," ++ Samples.lineFeed
       ++ "  { " ++ dquote ++ "a" ++ dquote ++ ": "
       ++ dquote ++ "1" ++ dquote ++ " }" ++ Samples.lineFeed
       ++ "]".
Proof.
  assert (H : prettyPrint Samples.prettyOptions = false
              \/ offset Samples.prettyOptions + 0
                 + Runtime.height Samples.mixedArray + 1
                 <= 2 ^ 32 - 1)
    by (right; vm_compute; discriminate).
  split; [exact H|]. split; [|reflexivity].
  exact (proj1 (proj2 serializeObject_returns_within_array_length)
           Samples.mixedArray Samples.prettyOptions 0 H).
Defined.

(** C9, the claim as first stated. Pretty-printed with an offset of
    [2^32], the empty array is not rendered: [_serializeObject] raises a
    [RangeError], and so does [serialize], also for a string. *)
Lemma serializeObject_raises_on_large_offset :
  prettyPrint Samples.hugeOffsetOptions = true
  /\ offset Samples.hugeOffsetOptions = 4294967296
  /\ Runtime._serializeObject (Runtime.JArray []) Samples.hugeOffsetOptions 0
     = inl Runtime.RangeError
  /\ Runtime.serialize (Runtime.JArray []) Samples.hugeOffsetOptions
     = inl Runtime.RangeError
  /\ Runtime.serialize (Runtime.JPrimitive (Runtime.PString "a"))
       Samples.hugeOffsetOptions
     = inl Runtime.RangeError.
Proof.
  repeat split; reflexivity.
Qed.

End RuntimeFacts.
